(** * BathingCrow: the scrub detector, the application flags and the
      asset fallback of [src/App.jsx]

    The development follows the source file from top to bottom.

    - JavaScript numbers are read as real numbers: coordinates, distances
      and time stamps are finite and arithmetic is exact (no rounding, no
      [NaN], no infinities).  The scrub counter, which only ever grows by
      one from zero, is a natural number.
    - React state ([useState]) is a record field; a state update followed
      by the re-render it causes is a record update, and the [useEffect]
      whose dependency list is [[scrubs]] runs in [render_commit] exactly
      when [scrubs] changed.
    - [setTimeout] puts a callback into a queue of pending timers; the
      event loop ([advance]) runs a callback once the clock has reached
      its due time and never before.
    - Code of the libraries (THREE's unprojection of the pointer ray,
      drei's [useGLTF], howler, gsap) is not part of the repository: the
      world position computed at line 105 is the argument of the frame
      event, [useGLTF] is a variable of the section about assets, sound
      playback and tweens are recorded in a log. *)

From Stdlib Require Import Reals Lra List Bool Arith Lia String DecimalString DecimalNat Sorted.
From ExtLib Require Import Structures.Monad Structures.MonadExc Data.Monads.EitherMonad.
Import ListNotations.
Import MonadNotation.
Local Open Scope monad_scope.
Local Open Scope R_scope.

(** ** Numbers *)

Module Math.
Definition max (a b : R) : R := Rmax a b.
Definition min (a b : R) : R := Rmin a b.
Definition sqrt (x : R) : R := R_sqrt.sqrt x.
Definition sin (x : R) : R := Rtrigo_def.sin x.
End Math.

(** A JS array of three numbers, [[x, y, z]]. *)
Record vec3 : Type := Vec3 { vx : R; vy : R; vz : R }.

Definition Rltb (a b : R) : bool := if Rlt_dec a b then true else false.
Definition Rleb (a b : R) : bool := if Rle_dec a b then true else false.

(** ** Rendered elements (lines 14-78 and 170-179) *)

Inductive geometry : Type :=
| sphereGeometry (radius : R) (widthSegments heightSegments : nat)
| coneGeometry (radius height : R) (radialSegments : nat)
| planeGeometry (width height : R)
| cylinderGeometry (radiusTop radiusBottom height : R) (radialSegments : nat).

Record material : Type := Material {
color : string;
metalness : option R;
roughness : option R
}.

(** What a function component can throw while it renders: the promise of
  a load in flight (React's suspension) or an error. *)
Inductive thrown : Type :=
| ThrownPromise
| ThrownError (message : string).

Abbreviation render := (sum thrown).

Section Assets.

(** A loaded THREE scene graph, and the two library calls made on it. *)
Variable Object3D : Type.
Variable useGLTF : string -> render Object3D.
Variable clone : Object3D -> render Object3D.

#[warnings="-register-all"] Inductive element : Type :=
| primitive (object : Object3D) (position : vec3) (scale : option R)
| group (position : vec3) (children : list element)
| mesh (position rotation : vec3) (castShadow receiveShadow : bool)
       (g : geometry) (m : material).

(** The effect registered by [CrowModel] at lines 20-33: it walks the
    cloned scene and sets the emissive intensity of every mesh. *)
Inductive effect : Type :=
| TraverseEmissive (scene : Object3D) (isGlowing : bool).

Record rendered : Type := Rendered {
  output : element;
  effects : list effect
}.

Definition origin : vec3 := Vec3 0 0 0.

(** Lines 37-64: the stylised crow made of simple geometry. *)
Definition crow_placeholder (position : vec3) (isGlowing : bool) : element :=
  group position
    ([ mesh origin origin true false
         (sphereGeometry 0.6 32 32)
         (Material (if isGlowing then "#1e90ff" else "#222") (Some 0.2) (Some 0.6));
       mesh (Vec3 0.6 (-0.05) 0.1) (Vec3 0 0 (-0.4)) false false
         (coneGeometry 0.18 0.5 16)
         (Material "#ffb84d" None None);
       mesh (Vec3 0.25 0.15 0.45) origin false false
         (sphereGeometry 0.08 12 12)
         (Material "white" None None);
       mesh (Vec3 0.32 0.15 0.48) origin false false
         (sphereGeometry 0.04 12 12)
         (Material "black" None None) ]
     ++ (if isGlowing
         then [ group (Vec3 0.25 0.24 0.45)
                  [ mesh origin (Vec3 0 0 (-0.5)) false false
                      (planeGeometry 0.18 0.05)
                      (Material "#000" None None) ] ]
         else [])).

(** Lines 14-66. *)
Definition CrowModel (position : vec3) (isGlowing : bool) : render rendered :=
  catch
    (gltf_scene <- useGLTF "/models/crow.glb" ;;
     scene <- clone gltf_scene ;;
     ret (Rendered (primitive scene position (Some 0.9))
                   [TraverseEmissive scene isGlowing]))
    (fun e => ret (Rendered (crow_placeholder position isGlowing) [])).

Definition crow_default_position : vec3 := Vec3 0 (-0.6) 0.

(** Lines 69-78. *)
Definition BathtubPlaceholder : element :=
  group (Vec3 0 (-1.1) 0)
    [ mesh origin origin false true
        (cylinderGeometry 2.2 2.2 0.6 32)
        (Material "#6d87b0ff" (Some 0.1) (Some 0.5)) ].

(** Lines 172-179. *)
Definition ModelOrFallback (path : string) (fallback : element)
    (position : vec3) : render rendered :=
  catch
    (gltf_scene <- useGLTF path ;;
     ret (Rendered (primitive gltf_scene position None) []))
    (fun e => ret (Rendered fallback [])).

(** Lines 159-163: the two children of [Suspense] in [Scene], rendered
    in order; a throw of either one reaches the enclosing view. *)
Definition Scene_assets (isGlowing : bool) : render (list rendered) :=
  tub <- ModelOrFallback "/models/bathtub.glb" BathtubPlaceholder (Vec3 0 (-1.1) 0) ;;
  crow <- CrowModel crow_default_position isGlowing ;;
  ret [tub; crow].

End Assets.

Arguments primitive {Object3D}.
Arguments group {Object3D}.
Arguments mesh {Object3D}.
Arguments Rendered {Object3D}.
Arguments TraverseEmissive {Object3D}.
Arguments crow_placeholder {Object3D}.
Arguments BathtubPlaceholder {Object3D}.
Arguments CrowModel {Object3D}.
Arguments ModelOrFallback {Object3D}.
Arguments Scene_assets {Object3D}.

(** A loader for which no asset resolves. *)
Definition missing_asset (path : string) : render unit :=
  inl (ThrownError "404").

(** An element built from geometry alone: no object of a loaded asset
    anywhere in it. *)
Fixpoint procedural {Object3D : Type} (e : element Object3D) : bool :=
  match e with
  | primitive _ _ _ => false
  | group _ children => forallb procedural children
  | mesh _ _ _ _ _ _ => true
  end.

(** ** Sounds (lines 10-11) *)

Inductive sound : Type :=
| splashSound
| cawSound.

(** ** State of [App] (lines 183-186) *)

Record AppState : Type := mkApp {
  scrubs : nat;
  isGlowing : bool;
  showIntro : bool;
  dead : bool
}.

Definition setScrubs (f : nat -> nat) (a : AppState) : AppState :=
  mkApp (f (scrubs a)) (isGlowing a) (showIntro a) (dead a).

Definition setIsGlowing (b : bool) (a : AppState) : AppState :=
  mkApp (scrubs a) b (showIntro a) (dead a).

Definition setShowIntro (b : bool) (a : AppState) : AppState :=
  mkApp (scrubs a) (isGlowing a) b (dead a).

Definition setDead (b : bool) (a : AppState) : AppState :=
  mkApp (scrubs a) (isGlowing a) (showIntro a) b.

(** Lines 196-198. *)
Definition handleScrub (a : AppState) : AppState :=
  setScrubs (fun s => (s + 1)%nat) a.

(** Line 212: the text of the counter in the HUD. *)
Definition scrub_counter (a : AppState) : string :=
  ("Scrubs: " ++ NilEmpty.string_of_uint (Nat.to_uint (scrubs a)) ++ " / 10")%string.

(** ** State of [DraggableSponge] (lines 82-87) *)

(** The fields of the sponge's THREE mesh that the frame callback writes. *)
Record Mesh : Type := mkMesh {
  mesh_position : vec3;
  rotation_z : R
}.

Inductive cursor_style : Type :=
| cursor_grabbing
| cursor_auto.

Record SpongeState : Type := mkSponge {
  ref : option Mesh;
  dragging : bool;
  position : vec3;
  scrubCooldown : bool;
  cursor : cursor_style
}.

Definition setDragging (b : bool) (s : SpongeState) : SpongeState :=
  mkSponge (ref s) b (position s) (scrubCooldown s) (cursor s).

(** How react-three-fiber compares the old and the new value of an array
    prop: element by element. *)
Definition is_equ (a b : vec3) : bool :=
  (if Req_dec_T (vx a) (vx b) then true else false)
  && (if Req_dec_T (vy a) (vy b) then true else false)
  && (if Req_dec_T (vz a) (vz b) then true else false).

(** [setPosition]: the re-render hands the [position] prop to the mesh
    (line 134), which is moved there when the value of the prop has
    changed and left where it is when it has not. *)
Definition setPosition (p : vec3) (s : SpongeState) : SpongeState :=
  mkSponge (if is_equ p (position s)
            then ref s
            else option_map (fun m => mkMesh p (rotation_z m)) (ref s))
           (dragging s) p (scrubCooldown s) (cursor s).

Definition set_scrubCooldown (b : bool) (s : SpongeState) : SpongeState :=
  mkSponge (ref s) (dragging s) (position s) b (cursor s).

Definition set_cursor (c : cursor_style) (s : SpongeState) : SpongeState :=
  mkSponge (ref s) (dragging s) (position s) (scrubCooldown s) c.

Definition set_ref (m : option Mesh) (s : SpongeState) : SpongeState :=
  mkSponge m (dragging s) (position s) (scrubCooldown s) (cursor s).

(** ** The page: both components, the timers and the logs *)

Inductive callback : Type :=
| ReleaseCooldown   (* line 121: () => { scrubCooldown.current = false; } *)
| SetDead.          (* lines 203-205: () => { setDead(true); } *)

Record timer : Type := Timer {
  due : R;
  cb : callback
}.

Record world : Type := mkWorld {
  clock : R;                (* milliseconds, what performance.now() returns *)
  app : AppState;
  sponge : SpongeState;
  timers : list timer;      (* pending, by due time *)
  played : list sound;      (* every Howl.play() so far, oldest first *)
  tweens : nat              (* number of gsap.fromTo calls so far *)
}.

Definition with_app (f : AppState -> AppState) (w : world) : world :=
  mkWorld (clock w) (f (app w)) (sponge w) (timers w) (played w) (tweens w).

Definition with_sponge (f : SpongeState -> SpongeState) (w : world) : world :=
  mkWorld (clock w) (app w) (f (sponge w)) (timers w) (played w) (tweens w).

Definition with_timers (f : list timer -> list timer) (w : world) : world :=
  mkWorld (clock w) (app w) (sponge w) (f (timers w)) (played w) (tweens w).

Definition with_clock (t : R) (w : world) : world :=
  mkWorld t (app w) (sponge w) (timers w) (played w) (tweens w).

Definition play (s : sound) (w : world) : world :=
  mkWorld (clock w) (app w) (sponge w) (timers w) (played w ++ [s]) (tweens w).

Definition gsap_fromTo (w : world) : world :=
  mkWorld (clock w) (app w) (sponge w) (timers w) (played w) (S (tweens w)).

(** The queue keeps timers by due time; of two timers due at the same
    time the one set first runs first. *)
Fixpoint insert_timer (tm : timer) (q : list timer) : list timer :=
  match q with
  | [] => [tm]
  | x :: q' =>
      if Rle_dec (due x) (due tm) then x :: insert_timer tm q' else tm :: q
  end.

Definition setTimeout (c : callback) (delay : R) (w : world) : world :=
  with_timers (insert_timer (Timer (clock w + delay) c)) w.

(** ** The frame callback of the sponge (lines 98-129) *)

Definition radius : R := 0.9.
Definition cooldown_ms : R := 350.
Definition dead_delay_ms : R := 800.
Definition threshold : nat := 10.

(** Line 107. *)
Definition newPos_of (pos : vec3) : vec3 :=
  Vec3 (vx pos) (Math.max (-0.3) (Math.min 1.2 (vy pos))) (vz pos).

(** Lines 111-114: distance to the crow centre (0, -0.6, 0). *)
Definition dist_of (newPos : vec3) : R :=
  let dx := vx newPos - 0 in
  let dy := vy newPos - (-0.6) in
  let dz := vz newPos - 0 in
  Math.sqrt (dx * dx + dy * dy + dz * dz).

(** The test of line 115. *)
Definition scrub_test (newPos : vec3) (w : world) : bool :=
  Rltb (dist_of newPos) radius && negb (scrubCooldown (sponge w)).

(** Lines 116-121, the body of the [if] of line 115. *)
Definition trigger (w : world) : world :=
  let w := with_sponge (set_scrubCooldown true) w in
  let w := with_app handleScrub w in          (* onScrub() *)
  let w := play splashSound w in
  let w := play cawSound w in
  setTimeout ReleaseCooldown cooldown_ms w.

(** Lines 99-123. *)
Definition drag_step (pos : vec3) (w : world) : world :=
  let newPos := newPos_of pos in
  let w := with_sponge (setPosition newPos) w in
  if scrub_test newPos w then trigger w else w.

(** Line 127, the summand added to [position[1]]. *)
Definition idle_offset (now : R) : R := Math.sin (now / 700) * 0.02.

(** Lines 125-128.  [position] is the state of the last render. *)
Definition idle_step (w : world) : world :=
  match ref (sponge w) with
  | Some m =>
      let rz := rotation_z m + 0.01 in                              (* line 126 *)
      let y := vy (position (sponge w)) + idle_offset (clock w) in  (* line 127 *)
      let p := mesh_position m in
      with_sponge (set_ref (Some (mkMesh (Vec3 (vx p) y (vz p)) rz))) w
  | None => w
  end.

(** Lines 98-129.  [pos] is the value of [pos] at line 105; [dragging] and
    [position] are the state the callback was rendered with. *)
Definition useFrame (pos : vec3) (w : world) : world :=
  let d := dragging (sponge w) in
  let w := if d then drag_step pos w else w in
  match ref (sponge w) with
  | Some _ => if negb d then idle_step w else w
  | None => w
  end.

(** ** React: commit of a render (lines 188-194) *)

(** The body of the effect. *)
Definition glow_effect (w : world) : world :=
  if (threshold <=? scrubs (app w))%nat
  then gsap_fromTo (with_app (setIsGlowing true) w)
  else w.

(** The effect depends on [[scrubs]]: it runs after a render in which
    [scrubs] differs from its value at the previous render. *)
Definition render_commit (prev_scrubs : nat) (w : world) : world :=
  if (scrubs (app w) =? prev_scrubs)%nat then w else glow_effect w.

(** ** The modal (lines 200-206 and 220-231) *)

Inductive answer : Type :=
| yes
| no.

Definition handleAnswer (ans : answer) (w : world) : world :=
  let w := with_app (setShowIntro false) w in
  setTimeout SetDead dead_delay_ms w.

(** ** Events and the event loop *)

Inductive event : Type :=
| Frame (pos : vec3)          (* one call of the useFrame callback *)
| PointerDown                 (* line 142 *)
| PointerUp                   (* line 143 *)
| PointerLeave                (* line 144 *)
| Click (ans : answer).       (* lines 226-227 *)

(** What the handler of an event does, before React renders again.  The
    two buttons exist only while the modal is shown (line 220). *)
Definition dispatch (e : event) (w : world) : world :=
  match e with
  | Frame pos => useFrame pos w
  | PointerDown =>
      with_sponge (fun s => set_cursor cursor_grabbing (setDragging true s)) w
  | PointerUp | PointerLeave =>
      with_sponge (fun s => set_cursor cursor_auto (setDragging false s)) w
  | Click ans => if showIntro (app w) then handleAnswer ans w else w
  end.

Definition handle (e : event) (w : world) : world :=
  render_commit (scrubs (app w)) (dispatch e w).

Definition fire (c : callback) (w : world) : world :=
  match c with
  | ReleaseCooldown => with_sponge (set_scrubCooldown false) w
  | SetDead => render_commit (scrubs (app w)) (with_app (setDead true) w)
  end.

Definition is_due (t : R) (tm : timer) : bool := Rleb (due tm) t.

(** Time passes until [t]: the callbacks that are due by then run, in the
    order of the queue.  The clock never goes back. *)
Definition advance (t : R) (w : world) : world :=
  let t := Rmax (clock w) t in
  let q := timers w in
  let w := with_clock t (with_timers (filter (fun tm => negb (is_due t tm))) w) in
  fold_left (fun w tm => fire (cb tm) w) (filter (is_due t) q) w.

(** A stamped event [(t, e)]: [e] happens at time [t]. *)
Definition step (te : R * event) (w : world) : world :=
  handle (snd te) (advance (fst te) w).

Definition run (tr : list (R * event)) (w : world) : world :=
  fold_left (fun w te => step te w) tr w.

(** The page after the first render, at time [t0]. *)
Definition init (t0 : R) : world :=
  let position := Vec3 1.2 0.5 0.6 in
  mkWorld t0
          (mkApp 0 false true false)
          (mkSponge (Some (mkMesh position 0)) false position false cursor_auto)
          [] [] 0.

(** The states the page can be in: the first render, then any stamped
    events. *)
Inductive reachable : world -> Prop :=
| reach_init (t0 : R) : reachable (init t0)
| reach_step (w : world) (te : R * event) :
    reachable w -> reachable (step te w).

Definition is_release (tm : timer) : bool :=
  match cb tm with ReleaseCooldown => true | SetDead => false end.

Definition is_set_dead (tm : timer) : bool :=
  match cb tm with ReleaseCooldown => false | SetDead => true end.

(** Every stamp of the trace is earlier than [d]. *)
Definition stamps_before (d : R) (tr : list (R * event)) : Prop :=
  Forall (fun te => fst te < d) tr.

(** The crow centre of the comment at line 110. *)
Definition crow_centre : vec3 := Vec3 0 (-0.6) 0.

(** A frame whose clamped position is within the radius of the crow. *)
Definition near (pos : vec3) : Prop := dist_of (newPos_of pos) < radius.

(** Events that leave the drag flag as it is or clear it. *)
Definition no_pointer_down (e : event) : bool :=
  match e with PointerDown => false | _ => true end.

(** The square of the distance, as computed at line 114. *)
Definition dist2_of (p : vec3) : R :=
  (vx p - 0) * (vx p - 0) + (vy p - (-0.6)) * (vy p - (-0.6))
  + (vz p - 0) * (vz p - 0).

(** The pending timers of each kind. *)
Definition releases (w : world) : list timer := filter is_release (timers w).
Definition set_deads (w : world) : list timer := filter is_set_dead (timers w).

(** The cooldown flag is set exactly while its release is pending. *)
Definition cool_inv (w : world) : Prop :=
  match releases w with
  | [] => scrubCooldown (sponge w) = false
  | [_] => scrubCooldown (sponge w) = true
  | _ => False
  end.

(** While the modal is shown nobody has died and no death is scheduled. *)
Definition intro_inv (w : world) : Prop :=
  showIntro (app w) = true -> dead (app w) = false /\ set_deads w = [].

(** The glow flag is set exactly when the counter has reached the
    threshold. *)
Definition glow_inv (w : world) : Prop :=
  isGlowing (app w) = (threshold <=? scrubs (app w))%nat.

(** The state of all timers due by [t] having run: only the two flags
    that the callbacks write can have changed. *)
Definition fired (l : list timer) (w : world) : world :=
  mkWorld (clock w)
          (mkApp (scrubs (app w)) (isGlowing (app w)) (showIntro (app w))
                 (existsb is_set_dead l || dead (app w)))
          (mkSponge (ref (sponge w)) (dragging (sponge w)) (position (sponge w))
                    (negb (existsb is_release l) && scrubCooldown (sponge w))
                    (cursor (sponge w)))
          (timers w) (played w) (tweens w).

(** Whether the handler of [e] runs the body of the [if] of line 115. *)
Definition fires (e : event) (w : world) : bool :=
  match e with
  | Frame pos => dragging (sponge w) && scrub_test (newPos_of pos) w
  | _ => false
  end.

(** The cooldown runs until [d]: the flag is set and its release, the
    only one pending, is due at [d], which is still ahead. *)
Definition cooling (d : R) (w : world) : Prop :=
  scrubCooldown (sponge w) = true
  /\ clock w < d
  /\ releases w = [Timer d ReleaseCooldown].

(** The modal was dismissed and the one pending death is due at [d],
    which is still ahead. *)
Definition dying (d : R) (w : world) : Prop :=
  showIntro (app w) = false
  /\ dead (app w) = false
  /\ clock w < d
  /\ set_deads w = [Timer d SetDead].

(** The modal was dismissed, and the dead flag is set or will be by [d]. *)
Definition doomed (d : R) (w : world) : Prop :=
  showIntro (app w) = false
  /\ (dead (app w) = true \/ existsb (is_due d) (set_deads w) = true).

(** The stored position of the sponge is inside the band above the tub. *)
Definition y_inv (w : world) : Prop :=
  -0.3 <= vy (position (sponge w)) <= 1.2.

(** Height of the sponge's mesh, and its offset from the stored
    [position[1]]; nothing when the mesh is not mounted. *)
Definition mesh_y (w : world) : option R :=
  option_map (fun m => vy (mesh_position m)) (ref (sponge w)).

Definition vertical_offset (w : world) : option R :=
  option_map (fun m => vy (mesh_position m) - vy (position (sponge w)))
             (ref (sponge w)).

(** Stamps in the order of time, none before [t]. *)
Fixpoint stamped_from (t : R) (tr : list (R * event)) : Prop :=
  match tr with
  | [] => True
  | (t1, _) :: tr' => t <= t1 /\ stamped_from t1 tr'
  end.

(** The test of line 115 on the distance alone. *)
Definition within_radius (pos : vec3) : bool :=
  Rltb (dist_of (newPos_of pos)) radius.

(** The stamps of the proximity events of a trace: the frames of a drag
    whose clamped position is within the radius.  [d] is the drag flag
    before the trace. *)
Fixpoint proximity_events (d : bool) (tr : list (R * event)) : list R :=
  match tr with
  | [] => []
  | (t, e) :: tr' =>
      match e with
      | Frame pos =>
          if d && within_radius pos
          then t :: proximity_events d tr'
          else proximity_events d tr'
      | PointerDown => proximity_events true tr'
      | PointerUp | PointerLeave => proximity_events false tr'
      | Click _ => proximity_events d tr'
      end
  end.

(** Times later than [b], each more than the cooldown after the one
    before it. *)
Fixpoint spaced_after (b : R) (ts : list R) : Prop :=
  match ts with
  | [] => True
  | t :: ts' => b < t /\ spaced_after (t + cooldown_ms) ts'
  end.

(** Every pending release of the cooldown is due by [b]. *)
Definition cooled_by (b : R) (w : world) : Prop :=
  Forall (fun tm => due tm <= b) (releases w).

(** A drag of [n] rounds from time [t] on: a frame at the crow centre,
    then a frame two units away from it, 200 ms later; one round every
    400 ms. *)
Fixpoint rub_trace (t : R) (n : nat) : list (R * event) :=
  match n with
  | O => []
  | S n' =>
      (t, Frame crow_centre) :: (t + 200, Frame (Vec3 2 0 0))
      :: rub_trace (t + 400) n'
  end.

(** The page at time 0 with the sponge grabbed. *)
Definition grabbed : world := step (0, PointerDown) (init 0).

(** The sponge held at the crow centre: frames at 0, 300 and 400 ms. *)
Definition held_0 : world := step (0, Frame crow_centre) grabbed.
Definition held_300 : world := step (300, Frame crow_centre) held_0.
Definition held_400 : world := step (400, Frame crow_centre) held_300.

(** The page after [n] rounds of rubbing. *)
Definition scrubbed (n : nat) : world := run (rub_trace 0 n) grabbed.

(** ** The pointer (lines 86-96) *)

(** [pointer.current]: the pointer in normalised device coordinates. *)
Record pointer_ndc : Type := Pointer {
  pointer_x : R;
  pointer_y : R
}.

(** Lines 90-93; [innerWidth] and [innerHeight] are the window's. *)
Definition handlePointerMove
    (clientX clientY innerWidth innerHeight : R) : pointer_ndc :=
  Pointer ((clientX / innerWidth) * 2 - 1)
          (- (clientY / innerHeight) * 2 + 1).

(** ** From the pointer ray to the plane (lines 103-105) *)

(** The methods of THREE.Vector3 that lines 103-105 call, as the vector
    algebra they implement. *)
Module Vector3.
Definition sub (a b : vec3) : vec3 :=
  Vec3 (vx a - vx b) (vy a - vy b) (vz a - vz b).
Definition add (a b : vec3) : vec3 :=
  Vec3 (vx a + vx b) (vy a + vy b) (vz a + vz b).
Definition multiplyScalar (v : vec3) (s : R) : vec3 :=
  Vec3 (vx v * s) (vy v * s) (vz v * s).
Definition length (v : vec3) : R :=
  Math.sqrt (vx v * vx v + vy v * vy v + vz v * vz v).
Definition divideScalar (v : vec3) (s : R) : vec3 := multiplyScalar v (1 / s).
(** [this.divideScalar(this.length() || 1)] *)
Definition normalize (v : vec3) : vec3 :=
  divideScalar v (if Req_dec_T (length v) 0 then 1 else length v).
End Vector3.

(** Lines 103-105: [vec] is the unprojected pointer of line 102. *)
Definition plane_point (camera_position vec : vec3) : vec3 :=
  let dir := Vector3.normalize (Vector3.sub vec camera_position) in
  let distance := - vz camera_position / vz dir in
  Vector3.add camera_position (Vector3.multiplyScalar dir distance).

(** ** The effect of [CrowModel] on the loaded scene (lines 20-33) *)

Record Color : Type := RGB { red : R; green : R; blue : R }.

Record MeshMaterial : Type := mkMaterial {
  emissive : option Color;
  emissiveIntensity : R
}.

(** A scene graph: the objects with [isMesh] carry shadow flags and a
    material. *)
#[warnings="-register-all"] Inductive SceneObject : Type :=
| SceneGroup (children : list SceneObject)
| SceneMesh (castShadow receiveShadow : bool) (material : MeshMaterial)
            (children : list SceneObject).

(** Lines 25-30. *)
Definition glow_material (isGlowing : bool) (m : MeshMaterial) : MeshMaterial :=
  if isGlowing
  then mkMaterial (Some (match emissive m with
                         | Some c => c
                         | None => RGB 0 0 0
                         end)) 0.4
  else mkMaterial (emissive m) 0.

(** Lines 21-32: [scene.traverse] calls the callback on the object and
    then on every descendant. *)
Fixpoint glow_traverse (isGlowing : bool) (c : SceneObject) : SceneObject :=
  match c with
  | SceneGroup children => SceneGroup (map (glow_traverse isGlowing) children)
  | SceneMesh _ _ material children =>
      SceneMesh true true (glow_material isGlowing material)
                (map (glow_traverse isGlowing) children)
  end.

(** The scene after an effect registered by [CrowModel] has run. *)
Definition run_effect (e : effect SceneObject) : SceneObject :=
  match e with
  | TraverseEmissive scene isGlowing => glow_traverse isGlowing scene
  end.

(** The meshes of the scene, in the order [traverse] visits them: the
    shadow flags and the material of each. *)
Fixpoint meshes (c : SceneObject) : list (bool * bool * MeshMaterial) :=
  match c with
  | SceneGroup children => flat_map meshes children
  | SceneMesh cs rs m children => (cs, rs, m) :: flat_map meshes children
  end.

(** The graph without what the callback writes. *)
Fixpoint shape (c : SceneObject) : SceneObject :=
  match c with
  | SceneGroup children => SceneGroup (map shape children)
  | SceneMesh _ _ _ children =>
      SceneMesh false false (mkMaterial None 0) (map shape children)
  end.

(** ** What [App] renders (lines 208-243) *)

Inductive page_item : Type :=
| hud_title (text : string)
| hud_scrub_counter (text : string)
| canvas (isGlowing : bool)
| intro_modal (heading question : string) (buttons : list answer)
| win_banner (text : string)
| footer_note (text : string).

Definition App_render (a : AppState) : list page_item :=
  [ hud_title "🫧 BathingCrow";
    hud_scrub_counter (scrub_counter a);
    canvas (isGlowing a) ]
  ++ (if showIntro a
      then [intro_modal "കാക്ക കുളിച്ചാൽ കൊക്ക് ആകുമോ?" "What do you think?" [yes; no]]
      else [])
  ++ (if isGlowing a then [win_banner "✨ Crow Glow-Up! ✨"] else [])
  ++ [ footer_note "Tip: Drag the orange sponge (right) onto the crow and scrub!" ].

(** ** Counting along a trace *)

(** The number of frames that run while no drag is active; [d] is the
    drag flag before the trace. *)
Fixpoint idle_frames (d : bool) (tr : list (R * event)) : nat :=
  match tr with
  | [] => O
  | (_, e) :: tr' =>
      match e with
      | Frame _ => if d then idle_frames d tr' else S (idle_frames d tr')
      | PointerDown => idle_frames true tr'
      | PointerUp | PointerLeave => idle_frames false tr'
      | Click _ => idle_frames d tr'
      end
  end.

Definition is_click (e : event) : bool :=
  match e with Click _ => true | _ => false end.

(** The queue in the order of due times. *)
Definition by_due (q : list timer) : Prop :=
  StronglySorted (fun a b => due a <= due b) q.

(** The rotation of the sponge's mesh. *)
Definition mesh_rotation (w : world) : option R :=
  option_map rotation_z (ref (sponge w)).

(** At most one death is pending, and only once the modal is gone. *)
Definition dead_once (w : world) : Prop :=
  match set_deads w with
  | [] => True
  | [_] => showIntro (app w) = false
  | _ => False
  end.

(** The queue is in order and each pending timer is due later than now
    and within the longest delay. *)
Definition timers_inv (w : world) : Prop :=
  by_due (timers w)
  /\ Forall (fun tm => clock w < due tm <= clock w + dead_delay_ms) (timers w).

(** Since time [T] there have been [n] scrubs, none of them closer than
    the cooldown to the one before: the [n]-th cooldown ends at
    [T + n * cooldown_ms] or later. *)
Definition paced (T : R) (n : nat) (w : world) : Prop :=
  cool_inv w
  /\ Forall (fun tm => due tm <= clock w + cooldown_ms) (releases w)
  /\ T <= clock w
  /\ (n = O
      \/ if scrubCooldown (sponge w)
         then Forall (fun tm => T + INR n * cooldown_ms <= due tm) (releases w)
         else T + INR n * cooldown_ms <= clock w).

(** The mesh of the sponge is mounted, above or below the stored
    position by at most the amplitude of the idle bob. *)
Definition mesh_near (w : world) : Prop :=
  match ref (sponge w) with
  | Some m =>
      vx (mesh_position m) = vx (position (sponge w))
      /\ vz (mesh_position m) = vz (position (sponge w))
      /\ Rabs (vy (mesh_position m) - vy (position (sponge w))) <= 0.02
  | None => False
  end.

(** The world position of the last frame of a drag in the trace, if there
    is one; [d] is the drag flag before the trace. *)
Fixpoint last_drag_pos (d : bool) (tr : list (R * event)) : option vec3 :=
  match tr with
  | [] => None
  | (_, e) :: tr' =>
      let d' := match e with
                | Frame _ | Click _ => d
                | PointerDown => true
                | PointerUp | PointerLeave => false
                end in
      match last_drag_pos d' tr' with
      | Some p => Some p
      | None =>
          match e with
          | Frame pos => if d then Some pos else None
          | _ => None
          end
      end
  end.

(** ** Tactics *)

Ltac break_world w :=
  let c := fresh "c" in let a := fresh "a" in let s := fresh "s" in
  let q := fresh "q" in let pl := fresh "pl" in let tw := fresh "tw" in
  destruct w as [c [? ? ? ?] [? ? ? ? ?] q pl tw].

Ltac rdec :=
  repeat match goal with
  | |- context [Rle_dec ?a ?b] => destruct (Rle_dec a b)
  | |- context [Rlt_dec ?a ?b] => destruct (Rlt_dec a b)
  | H : context [Rle_dec ?a ?b] |- _ => destruct (Rle_dec a b)
  | H : context [Rlt_dec ?a ?b] |- _ => destruct (Rlt_dec a b)
  end.

(** ** Numbers: the clamp and the distance *)

Lemma Rltb_true (a b : R) : Rltb a b = true <-> a < b.
Proof. unfold Rltb. destruct (Rlt_dec a b); split; intros; auto; discriminate. Qed.

Lemma Rltb_false (a b : R) : Rltb a b = false <-> b <= a.
Proof.
  unfold Rltb. destruct (Rlt_dec a b); split; intros; auto; try discriminate; lra.
Qed.

Lemma Rleb_true (a b : R) : Rleb a b = true <-> a <= b.
Proof. unfold Rleb. destruct (Rle_dec a b); split; intros; auto; discriminate. Qed.

Lemma Rleb_false (a b : R) : Rleb a b = false <-> b < a.
Proof.
  unfold Rleb. destruct (Rle_dec a b); split; intros; auto; try discriminate; lra.
Qed.

Lemma clamp_range (y : R) :
  -0.3 <= Math.max (-0.3) (Math.min 1.2 y) <= 1.2.
Proof.
  unfold Math.max, Math.min, Rmax, Rmin. rdec; lra.
Qed.

Lemma clamp_inside (y : R) :
  -0.3 <= y <= 1.2 -> Math.max (-0.3) (Math.min 1.2 y) = y.
Proof.
  intros H. unfold Math.max, Math.min, Rmax, Rmin. rdec; lra.
Qed.

Lemma clamp_below (y : R) :
  y <= -0.3 -> Math.max (-0.3) (Math.min 1.2 y) = -0.3.
Proof.
  intros H. unfold Math.max, Math.min, Rmax, Rmin. rdec; lra.
Qed.

Lemma clamp_above (y : R) :
  1.2 <= y -> Math.max (-0.3) (Math.min 1.2 y) = 1.2.
Proof.
  intros H. unfold Math.max, Math.min, Rmax, Rmin. rdec; lra.
Qed.

Lemma newPos_y_range (pos : vec3) : -0.3 <= vy (newPos_of pos) <= 1.2.
Proof. apply clamp_range. Qed.

Lemma dist2_nonneg (p : vec3) : 0 <= dist2_of p.
Proof.
  unfold dist2_of.
  pose proof (Rle_0_sqr (vx p - 0)) as Hx.
  pose proof (Rle_0_sqr (vy p - (-0.6))) as Hy.
  pose proof (Rle_0_sqr (vz p - 0)) as Hz.
  unfold Rsqr in Hx, Hy, Hz. lra.
Qed.

Lemma dist_of_sqrt (p : vec3) : dist_of p = sqrt (dist2_of p).
Proof. reflexivity. Qed.

Lemma dist_lt_iff (p : vec3) (r : R) :
  0 <= r -> (dist_of p < r <-> dist2_of p < r * r).
Proof.
  intros Hr. rewrite dist_of_sqrt.
  pose proof (dist2_nonneg p) as Hd.
  rewrite <- (sqrt_square r) at 1 by exact Hr.
  split; intros H.
  - apply sqrt_lt_0_alt in H. exact H.
  - apply sqrt_lt_1_alt. split; assumption.
Qed.

Lemma dist_ge_iff (p : vec3) (r : R) :
  0 <= r -> (r <= dist_of p <-> r * r <= dist2_of p).
Proof.
  intros Hr. pose proof (dist_lt_iff p r Hr) as H.
  split; intros H1.
  - destruct (Rlt_dec (dist2_of p) (r * r)) as [Hlt|]; [|lra].
    apply H in Hlt. lra.
  - destruct (Rlt_dec (dist_of p) r) as [Hlt|]; [|lra].
    apply H in Hlt. lra.
Qed.

Lemma dist_eq_of_square (p : vec3) (r : R) :
  0 <= r -> dist2_of p = r * r -> dist_of p = r.
Proof.
  intros Hr H. rewrite dist_of_sqrt, H. apply sqrt_square. exact Hr.
Qed.

(** After the clamp the sponge is at least 0.3 above the crow's centre. *)
Lemma dist_clamped_ge (pos : vec3) : 0.3 <= dist_of (newPos_of pos).
Proof.
  apply dist_ge_iff; [lra|].
  pose proof (newPos_y_range pos) as Hy.
  unfold dist2_of. nra.
Qed.

(** ** The commit of a render *)

Lemma render_commit_frame (p : nat) (w : world) :
  clock (render_commit p w) = clock w
  /\ sponge (render_commit p w) = sponge w
  /\ timers (render_commit p w) = timers w
  /\ played (render_commit p w) = played w
  /\ scrubs (app (render_commit p w)) = scrubs (app w)
  /\ showIntro (app (render_commit p w)) = showIntro (app w)
  /\ dead (app (render_commit p w)) = dead (app w).
Proof.
  unfold render_commit, glow_effect.
  destruct (scrubs (app w) =? p)%nat; [repeat split|].
  destruct (threshold <=? scrubs (app w))%nat; repeat split.
Qed.

Lemma render_commit_glow (p : nat) (w : world) :
  isGlowing (app (render_commit p w))
  = if (scrubs (app w) =? p)%nat then isGlowing (app w)
    else (threshold <=? scrubs (app w))%nat || isGlowing (app w).
Proof.
  unfold render_commit, glow_effect.
  destruct (scrubs (app w) =? p)%nat; [reflexivity|].
  destruct (threshold <=? scrubs (app w))%nat; reflexivity.
Qed.

(** ** The frame callback *)

Lemma useFrame_idle (pos : vec3) (w : world) :
  dragging (sponge w) = false -> useFrame pos w = idle_step w.
Proof.
  intros H. unfold useFrame, idle_step. rewrite H. simpl.
  destruct (ref (sponge w)); reflexivity.
Qed.

Lemma useFrame_drag (pos : vec3) (w : world) :
  dragging (sponge w) = true -> useFrame pos w = drag_step pos w.
Proof.
  intros H. unfold useFrame. rewrite H. simpl.
  destruct (ref (sponge (drag_step pos w))); reflexivity.
Qed.

Lemma scrub_test_setPosition (p q : vec3) (w : world) :
  scrub_test p (with_sponge (setPosition q) w) = scrub_test p w.
Proof. reflexivity. Qed.

Lemma drag_step_fire (pos : vec3) (w : world) :
  scrub_test (newPos_of pos) w = true ->
  drag_step pos w = trigger (with_sponge (setPosition (newPos_of pos)) w).
Proof.
  intros H. unfold drag_step. rewrite scrub_test_setPosition, H. reflexivity.
Qed.

Lemma drag_step_quiet (pos : vec3) (w : world) :
  scrub_test (newPos_of pos) w = false ->
  drag_step pos w = with_sponge (setPosition (newPos_of pos)) w.
Proof.
  intros H. unfold drag_step. rewrite scrub_test_setPosition, H. reflexivity.
Qed.

Lemma scrub_test_true (p : vec3) (w : world) :
  scrub_test p w = true
  <-> dist_of p < radius /\ scrubCooldown (sponge w) = false.
Proof.
  unfold scrub_test. rewrite andb_true_iff, Rltb_true, negb_true_iff. tauto.
Qed.

Lemma scrub_test_cooldown (p : vec3) (w : world) :
  scrubCooldown (sponge w) = true -> scrub_test p w = false.
Proof.
  intros H. unfold scrub_test. rewrite H. apply andb_false_r.
Qed.

Lemma scrub_test_far (p : vec3) (w : world) :
  radius <= dist_of p -> scrub_test p w = false.
Proof.
  intros H. unfold scrub_test.
  apply (proj2 (Rltb_false _ _)) in H. rewrite H. reflexivity.
Qed.

(** ** Timers *)

Lemma fire_SetDead (w : world) : fire SetDead w = with_app (setDead true) w.
Proof.
  unfold fire, render_commit. simpl. rewrite Nat.eqb_refl. reflexivity.
Qed.

Lemma fire_all (l : list timer) (w : world) :
  fold_left (fun w tm => fire (cb tm) w) l w = fired l w.
Proof.
  revert w. induction l as [|tm l IH]; intros w.
  - break_world w. reflexivity.
  - cbn [fold_left]. rewrite IH.
    destruct tm as [d [|]]; [|rewrite fire_SetDead];
      break_world w; unfold fired; simpl;
      rewrite ?andb_false_r, ?orb_true_r; reflexivity.
Qed.

Lemma advance_eq (t : R) (w : world) :
  advance t w
  = fired (filter (is_due (Rmax (clock w) t)) (timers w))
      (with_clock (Rmax (clock w) t)
         (with_timers (filter (fun tm => negb (is_due (Rmax (clock w) t) tm))) w)).
Proof. unfold advance. apply fire_all. Qed.

Lemma filter_comm {A : Type} (f g : A -> bool) (l : list A) :
  filter f (filter g l) = filter g (filter f l).
Proof.
  induction l as [|x l IH]; [reflexivity|]. simpl.
  destruct (f x) eqn:Hf, (g x) eqn:Hg; simpl; rewrite ?Hf, ?Hg, IH; reflexivity.
Qed.

Lemma existsb_filter {A : Type} (f g : A -> bool) (l : list A) :
  existsb f (filter g l) = existsb g (filter f l).
Proof.
  induction l as [|x l IH]; [reflexivity|]. simpl.
  destruct (f x) eqn:Hf, (g x) eqn:Hg; simpl; rewrite ?Hf, ?Hg, IH; reflexivity.
Qed.

Lemma filter_insert_other (f : timer -> bool) (tm : timer) (q : list timer) :
  f tm = false -> filter f (insert_timer tm q) = filter f q.
Proof.
  intros H. induction q as [|x q IH]; simpl.
  - rewrite H. reflexivity.
  - destruct (Rle_dec (due x) (due tm)); simpl.
    + rewrite IH. reflexivity.
    + rewrite H. reflexivity.
Qed.

Lemma filter_insert_first (f : timer -> bool) (tm : timer) (q : list timer) :
  f tm = true -> filter f q = [] -> filter f (insert_timer tm q) = [tm].
Proof.
  intros H. induction q as [|x q IH]; simpl; intros Hq.
  - rewrite H. reflexivity.
  - destruct (f x) eqn:Hx; [discriminate|].
    destruct (Rle_dec (due x) (due tm)); simpl.
    + rewrite Hx. auto.
    + rewrite H, Hx, Hq. reflexivity.
Qed.

(** What the passing of time changes. *)
Lemma advance_frame (t : R) (w : world) :
  clock (advance t w) = Rmax (clock w) t
  /\ scrubs (app (advance t w)) = scrubs (app w)
  /\ isGlowing (app (advance t w)) = isGlowing (app w)
  /\ showIntro (app (advance t w)) = showIntro (app w)
  /\ ref (sponge (advance t w)) = ref (sponge w)
  /\ dragging (sponge (advance t w)) = dragging (sponge w)
  /\ position (sponge (advance t w)) = position (sponge w)
  /\ played (advance t w) = played w
  /\ tweens (advance t w) = tweens w.
Proof. rewrite advance_eq. repeat split. Qed.

Lemma advance_releases (t : R) (w : world) :
  releases (advance t w)
  = filter (fun tm => negb (is_due (Rmax (clock w) t) tm)) (releases w).
Proof. rewrite advance_eq. unfold releases. simpl. apply filter_comm. Qed.

Lemma advance_set_deads (t : R) (w : world) :
  set_deads (advance t w)
  = filter (fun tm => negb (is_due (Rmax (clock w) t) tm)) (set_deads w).
Proof. rewrite advance_eq. unfold set_deads. simpl. apply filter_comm. Qed.

Lemma advance_cooldown (t : R) (w : world) :
  scrubCooldown (sponge (advance t w))
  = negb (existsb (is_due (Rmax (clock w) t)) (releases w))
    && scrubCooldown (sponge w).
Proof.
  rewrite advance_eq. unfold releases. simpl.
  rewrite existsb_filter. reflexivity.
Qed.

Lemma advance_dead (t : R) (w : world) :
  dead (app (advance t w))
  = existsb (is_due (Rmax (clock w) t)) (set_deads w) || dead (app w).
Proof.
  rewrite advance_eq. unfold set_deads. simpl.
  rewrite existsb_filter. reflexivity.
Qed.

(** ** One event *)

Lemma handle_unchanged_scrubs (e : event) (w : world) :
  scrubs (app (dispatch e w)) = scrubs (app w) -> handle e w = dispatch e w.
Proof.
  intros H. unfold handle, render_commit. rewrite H, Nat.eqb_refl. reflexivity.
Qed.

Lemma idle_step_frame (w : world) :
  clock (idle_step w) = clock w
  /\ app (idle_step w) = app w
  /\ timers (idle_step w) = timers w
  /\ played (idle_step w) = played w
  /\ tweens (idle_step w) = tweens w
  /\ dragging (sponge (idle_step w)) = dragging (sponge w)
  /\ position (sponge (idle_step w)) = position (sponge w)
  /\ scrubCooldown (sponge (idle_step w)) = scrubCooldown (sponge w)
  /\ cursor (sponge (idle_step w)) = cursor (sponge w).
Proof.
  unfold idle_step. destruct (ref (sponge w)); repeat split.
Qed.

Lemma dispatch_quiet (e : event) (w : world) :
  fires e w = false ->
  clock (dispatch e w) = clock w
  /\ scrubs (app (dispatch e w)) = scrubs (app w)
  /\ isGlowing (app (dispatch e w)) = isGlowing (app w)
  /\ dead (app (dispatch e w)) = dead (app w)
  /\ played (dispatch e w) = played w
  /\ tweens (dispatch e w) = tweens w
  /\ scrubCooldown (sponge (dispatch e w)) = scrubCooldown (sponge w)
  /\ releases (dispatch e w) = releases w.
Proof.
  intros Hq. destruct e as [pos| | | |ans]; simpl in *.
  - destruct (dragging (sponge w)) eqn:Hd; simpl in Hq.
    + rewrite (useFrame_drag _ _ Hd), (drag_step_quiet _ _ Hq). repeat split.
    + rewrite (useFrame_idle _ _ Hd).
      destruct (idle_step_frame w) as (H1 & H2 & H3 & H4 & H5 & H6 & H7 & H8 & H9).
      unfold releases. rewrite H1, H2, H3, H4, H5, H8. repeat split.
  - repeat split.
  - repeat split.
  - repeat split.
  - destruct (showIntro (app w)); [|repeat split].
    unfold handleAnswer, setTimeout, releases; simpl.
    rewrite filter_insert_other by reflexivity. repeat split.
Qed.

Lemma handle_quiet (e : event) (w : world) :
  fires e w = false ->
  handle e w = dispatch e w
  /\ clock (handle e w) = clock w
  /\ scrubs (app (handle e w)) = scrubs (app w)
  /\ isGlowing (app (handle e w)) = isGlowing (app w)
  /\ dead (app (handle e w)) = dead (app w)
  /\ played (handle e w) = played w
  /\ tweens (handle e w) = tweens w
  /\ scrubCooldown (sponge (handle e w)) = scrubCooldown (sponge w)
  /\ releases (handle e w) = releases w.
Proof.
  intros Hq. pose proof (dispatch_quiet e w Hq) as H.
  rewrite (handle_unchanged_scrubs e w) by apply H. split; [reflexivity|exact H].
Qed.

Lemma fires_frame (e : event) (w : world) :
  fires e w = true ->
  exists pos, e = Frame pos /\ dragging (sponge w) = true
              /\ scrub_test (newPos_of pos) w = true.
Proof.
  destruct e as [pos| | | |ans]; simpl; try discriminate.
  rewrite andb_true_iff. intros [H1 H2]. exists pos. auto.
Qed.

Lemma dispatch_fires (e : event) (w : world) :
  fires e w = true ->
  exists pos, e = Frame pos
    /\ dispatch e w = trigger (with_sponge (setPosition (newPos_of pos)) w).
Proof.
  intros H. destruct (fires_frame e w H) as (pos & -> & Hd & Ht).
  exists pos. split; [reflexivity|]. simpl.
  rewrite (useFrame_drag _ _ Hd). apply drag_step_fire. exact Ht.
Qed.

Lemma handle_fires (e : event) (w : world) :
  fires e w = true ->
  clock (handle e w) = clock w
  /\ scrubs (app (handle e w)) = S (scrubs (app w))
  /\ showIntro (app (handle e w)) = showIntro (app w)
  /\ dead (app (handle e w)) = dead (app w)
  /\ played (handle e w) = played w ++ [splashSound; cawSound]
  /\ scrubCooldown (sponge (handle e w)) = true
  /\ dragging (sponge (handle e w)) = true
  /\ timers (handle e w)
     = insert_timer (Timer (clock w + cooldown_ms) ReleaseCooldown) (timers w).
Proof.
  intros H. destruct (dispatch_fires e w H) as (pos & -> & Hd).
  destruct (fires_frame _ _ H) as (pos' & Hpos & Hdrag & _).
  unfold handle. rewrite Hd.
  destruct (render_commit_frame (scrubs (app w))
              (trigger (with_sponge (setPosition (newPos_of pos)) w)))
    as (H1 & H2 & H3 & H4 & H5 & H6 & H7).
  rewrite H1, H2, H3, H4, H5, H6, H7. simpl.
  rewrite Nat.add_1_r, <- app_assoc, Hdrag. repeat split.
Qed.

(** One event adds at most one to the counter. *)
Lemma handle_scrubs (e : event) (w : world) :
  scrubs (app (handle e w))
  = if fires e w then S (scrubs (app w)) else scrubs (app w).
Proof.
  destruct (fires e w) eqn:H.
  - apply handle_fires. exact H.
  - apply handle_quiet. exact H.
Qed.

Lemma handle_clock (e : event) (w : world) : clock (handle e w) = clock w.
Proof.
  destruct (fires e w) eqn:H.
  - apply handle_fires. exact H.
  - apply handle_quiet. exact H.
Qed.

Lemma step_clock (te : R * event) (w : world) :
  clock (step te w) = Rmax (clock w) (fst te).
Proof. unfold step. rewrite handle_clock. apply advance_frame. Qed.

Lemma step_scrubs (te : R * event) (w : world) :
  scrubs (app (step te w))
  = if fires (snd te) (advance (fst te) w)
    then S (scrubs (app w)) else scrubs (app w).
Proof.
  unfold step. rewrite handle_scrubs.
  destruct (advance_frame (fst te) w) as (_ & -> & _). reflexivity.
Qed.

Lemma run_app (tr1 tr2 : list (R * event)) (w : world) :
  run (tr1 ++ tr2) w = run tr2 (run tr1 w).
Proof. apply fold_left_app. Qed.

Lemma run_cons (te : R * event) (tr : list (R * event)) (w : world) :
  run (te :: tr) w = run tr (step te w).
Proof. reflexivity. Qed.

Lemma run_one (te : R * event) (w : world) : run [te] w = step te w.
Proof. reflexivity. Qed.

Lemma reachable_run (tr : list (R * event)) (w : world) :
  reachable w -> reachable (run tr w).
Proof.
  revert w. induction tr as [|te tr IH]; intros w H; [exact H|].
  rewrite run_cons. apply IH. constructor. exact H.
Qed.

(** ** The cooldown *)

Lemma is_due_timer (t d : R) (c : callback) :
  is_due t (Timer d c) = Rleb d t.
Proof. reflexivity. Qed.

Lemma is_due_mono (t1 t2 : R) (tm : timer) :
  t1 <= t2 -> is_due t1 tm = true -> is_due t2 tm = true.
Proof.
  unfold is_due. rewrite !Rleb_true. lra.
Qed.

Lemma cool_inv_init (t0 : R) : cool_inv (init t0).
Proof. reflexivity. Qed.

Lemma cool_inv_advance (t : R) (w : world) :
  cool_inv w -> cool_inv (advance t w).
Proof.
  unfold cool_inv. rewrite advance_releases, advance_cooldown.
  destruct (releases w) as [|r [|r' l]]; simpl; intros H.
  - rewrite H. reflexivity.
  - rewrite H. destruct (is_due (Rmax (clock w) t) r); reflexivity.
  - contradiction.
Qed.

Lemma cool_inv_free (w : world) :
  cool_inv w -> scrubCooldown (sponge w) = false -> releases w = [].
Proof.
  unfold cool_inv. destruct (releases w) as [|r [|r' l]]; intros H Hc.
  - reflexivity.
  - congruence.
  - contradiction.
Qed.

Lemma fires_free (e : event) (w : world) :
  fires e w = true -> scrubCooldown (sponge w) = false.
Proof.
  intros H. destruct (fires_frame e w H) as (pos & _ & _ & Ht).
  apply scrub_test_true in Ht. apply Ht.
Qed.

Lemma handle_fires_releases (e : event) (w : world) :
  cool_inv w -> fires e w = true ->
  releases (handle e w) = [Timer (clock w + cooldown_ms) ReleaseCooldown].
Proof.
  intros Hi Hf. unfold releases.
  destruct (handle_fires e w Hf) as (_ & _ & _ & _ & _ & _ & _ & ->).
  apply filter_insert_first; [reflexivity|].
  apply cool_inv_free; [exact Hi|]. apply (fires_free e). exact Hf.
Qed.

Lemma cool_inv_handle (e : event) (w : world) :
  cool_inv w -> cool_inv (handle e w).
Proof.
  intros Hi. destruct (fires e w) eqn:Hf.
  - unfold cool_inv. rewrite (handle_fires_releases e w Hi Hf).
    apply handle_fires. exact Hf.
  - destruct (handle_quiet e w Hf) as (_ & _ & _ & _ & _ & _ & _ & Hc & Hr).
    unfold cool_inv. rewrite Hr, Hc. exact Hi.
Qed.

Lemma cool_inv_step (te : R * event) (w : world) :
  cool_inv w -> cool_inv (step te w).
Proof. intros H. apply cool_inv_handle, cool_inv_advance, H. Qed.

Lemma cool_inv_reachable (w : world) : reachable w -> cool_inv w.
Proof.
  induction 1 as [t0|w te _ IH]; [apply cool_inv_init|apply cool_inv_step, IH].
Qed.

(** A scrub starts the cooldown, which then runs for [cooldown_ms]. *)
Lemma fires_cooling (e : event) (w : world) :
  cool_inv w -> fires e w = true ->
  cooling (clock w + cooldown_ms) (handle e w).
Proof.
  intros Hi Hf. unfold cooling.
  rewrite (handle_fires_releases e w Hi Hf).
  destruct (handle_fires e w Hf) as (Hc & _ & _ & _ & _ & Hcd & _).
  rewrite Hc, Hcd. unfold cooldown_ms. repeat split. lra.
Qed.

Lemma cooling_advance (d t : R) (w : world) :
  cooling d w -> t < d -> cooling d (advance t w).
Proof.
  intros (Hc & Hk & Hr) Ht. unfold cooling.
  rewrite advance_cooldown, advance_releases, Hr, Hc.
  destruct (advance_frame t w) as (-> & _).
  assert (Hm : Rmax (clock w) t < d) by (apply Rmax_lub_lt; assumption).
  simpl. rewrite is_due_timer, (proj2 (Rleb_false _ _) Hm). simpl. auto.
Qed.

Lemma cooling_quiet (d : R) (e : event) (w : world) :
  cooling d w -> fires e w = false.
Proof.
  intros (Hc & _). destruct (fires e w) eqn:Hf; [|reflexivity].
  apply fires_free in Hf. congruence.
Qed.

Lemma cooling_step (d : R) (te : R * event) (w : world) :
  cooling d w -> fst te < d ->
  cooling d (step te w)
  /\ scrubs (app (step te w)) = scrubs (app w)
  /\ played (step te w) = played w.
Proof.
  intros Hc Ht. pose proof (cooling_advance d (fst te) w Hc Ht) as Ha.
  pose proof (cooling_quiet d (snd te) _ Ha) as Hq.
  destruct (handle_quiet _ _ Hq) as (_ & Hk & Hs & _ & _ & Hp & _ & Hcd & Hr).
  destruct (advance_frame (fst te) w) as (_ & Hs' & _ & _ & _ & _ & _ & Hp' & _).
  unfold step. rewrite Hs, Hp, Hs', Hp'. split; [|auto].
  destruct Ha as (A1 & A2 & A3). unfold cooling. rewrite Hcd, Hk, Hr. auto.
Qed.

Lemma cooling_run (d : R) (tr : list (R * event)) (w : world) :
  cooling d w -> stamps_before d tr ->
  cooling d (run tr w)
  /\ scrubs (app (run tr w)) = scrubs (app w)
  /\ played (run tr w) = played w.
Proof.
  revert w. induction tr as [|te tr IH]; intros w Hc Hs; [auto|].
  inversion Hs as [|? ? Ht Hs']; subst.
  destruct (cooling_step d te w Hc Ht) as (Hc1 & Hs1 & Hp1).
  rewrite run_cons. destruct (IH _ Hc1 Hs') as (Hc2 & Hs2 & Hp2).
  rewrite Hs2, Hp2. auto.
Qed.

Lemma cooling_release (d t : R) (w : world) :
  cooling d w -> d <= t ->
  scrubCooldown (sponge (advance t w)) = false /\ releases (advance t w) = [].
Proof.
  intros (Hc & Hk & Hr) Ht.
  rewrite advance_cooldown, advance_releases, Hr. simpl.
  assert (Hm : d <= Rmax (clock w) t).
  { apply Rle_trans with t; [exact Ht|apply Rmax_r]. }
  rewrite is_due_timer, (proj2 (Rleb_true _ _) Hm). auto.
Qed.

(** In a window shorter than the cooldown at most one scrub fires. *)
Lemma window_at_most_one (T : R) (tr : list (R * event)) (w : world) :
  cool_inv w -> clock w < T + cooldown_ms ->
  Forall (fun te => T <= fst te < T + cooldown_ms) tr ->
  (scrubs (app (run tr w)) <= S (scrubs (app w)))%nat.
Proof.
  revert w. induction tr as [|te tr IH]; intros w Hi Hk Hs; [simpl; lia|].
  inversion Hs as [|? ? [Ht1 Ht2] Hs']; subst.
  rewrite run_cons.
  assert (Hk1 : clock (step te w) < T + cooldown_ms).
  { rewrite step_clock. apply Rmax_lub_lt; assumption. }
  destruct (fires (snd te) (advance (fst te) w)) eqn:Hf.
  - assert (Hc : cooling (clock (advance (fst te) w) + cooldown_ms) (step te w)).
    { apply fires_cooling; [apply cool_inv_advance, Hi|exact Hf]. }
    assert (Hb : stamps_before (clock (advance (fst te) w) + cooldown_ms) tr).
    { unfold stamps_before. eapply Forall_impl; [|exact Hs'].
      intros te' [_ H']. simpl.
      destruct (advance_frame (fst te) w) as (-> & _).
      pose proof (Rmax_r (clock w) (fst te)). lra. }
    destruct (cooling_run _ tr _ Hc Hb) as (_ & -> & _).
    rewrite step_scrubs, Hf. lia.
  - specialize (IH (step te w) (cool_inv_step te w Hi) Hk1 Hs').
    rewrite step_scrubs, Hf in IH. exact IH.
Qed.

(** ** Counting scrubs *)

Lemma near_scrub_test (pos : vec3) (w : world) :
  near pos -> scrub_test (newPos_of pos) w = negb (scrubCooldown (sponge w)).
Proof.
  intros H. unfold scrub_test.
  rewrite (proj2 (Rltb_true _ _) H). reflexivity.
Qed.

Lemma near_centre : near crow_centre.
Proof.
  unfold near, radius. apply dist_lt_iff; [lra|].
  unfold dist2_of, newPos_of, crow_centre. simpl.
  rewrite clamp_below by lra. lra.
Qed.

(** Past the due time of every pending release the cooldown is over. *)
Lemma advance_free (t : R) (w : world) :
  cool_inv w ->
  Forall (fun tm => due tm <= t) (releases w) ->
  scrubCooldown (sponge (advance t w)) = false.
Proof.
  unfold cool_inv. intros Hi Hd. rewrite advance_cooldown.
  destruct (releases w) as [|r [|r' l]]; simpl.
  - rewrite Hi. reflexivity.
  - inversion Hd as [|? ? Hr _]; subst.
    assert (Hm : due r <= Rmax (clock w) t).
    { apply Rle_trans with t; [exact Hr|apply Rmax_r]. }
    unfold is_due. rewrite (proj2 (Rleb_true _ _) Hm). reflexivity.
  - contradiction.
Qed.

Lemma advance_stays_free (t : R) (w : world) :
  scrubCooldown (sponge w) = false ->
  scrubCooldown (sponge (advance t w)) = false.
Proof.
  intros H. rewrite advance_cooldown, H. apply andb_false_r.
Qed.

(** ** The glow flag *)

Lemma handle_fires_glow (e : event) (w : world) :
  fires e w = true ->
  isGlowing (app (handle e w))
  = (threshold <=? S (scrubs (app w)))%nat || isGlowing (app w).
Proof.
  intros Hf. destruct (dispatch_fires _ _ Hf) as (pos & _ & Hd).
  unfold handle. rewrite render_commit_glow, Hd.
  change (scrubs (app (trigger (with_sponge (setPosition (newPos_of pos)) w))))
    with (scrubs (app w) + 1)%nat.
  change (isGlowing (app (trigger (with_sponge (setPosition (newPos_of pos)) w))))
    with (isGlowing (app w)).
  rewrite Nat.add_1_r.
  rewrite (proj2 (Nat.eqb_neq _ _)) by lia. reflexivity.
Qed.

Lemma glow_inv_step (te : R * event) (w : world) :
  glow_inv w -> glow_inv (step te w).
Proof.
  unfold glow_inv, step. intros H.
  destruct (advance_frame (fst te) w) as (_ & Hs & Hg & _).
  destruct (fires (snd te) (advance (fst te) w)) eqn:Hf.
  - destruct (handle_fires _ _ Hf) as (_ & Hs1 & _).
    rewrite Hs1, (handle_fires_glow _ _ Hf), Hs, Hg, H.
    destruct (Nat.leb_spec threshold (S (scrubs (app w)))) as [E1|E1];
      [reflexivity|].
    destruct (Nat.leb_spec threshold (scrubs (app w))); [lia|reflexivity].
  - destruct (handle_quiet _ _ Hf) as (_ & _ & Hs1 & Hg1 & _).
    rewrite Hs1, Hg1, Hs, Hg. exact H.
Qed.

Lemma glow_inv_reachable (w : world) : reachable w -> glow_inv w.
Proof.
  induction 1 as [t0|w te _ IH]; [reflexivity|apply glow_inv_step, IH].
Qed.

(** No step clears the glow flag, in any state whatever. *)
Lemma glow_step_mono (te : R * event) (w : world) :
  isGlowing (app w) = true -> isGlowing (app (step te w)) = true.
Proof.
  intros H. unfold step.
  destruct (advance_frame (fst te) w) as (_ & _ & Hg & _).
  destruct (fires (snd te) (advance (fst te) w)) eqn:Hf.
  - rewrite (handle_fires_glow _ _ Hf), Hg, H. apply orb_true_r.
  - destruct (handle_quiet _ _ Hf) as (_ & _ & _ & Hg1 & _).
    rewrite Hg1, Hg. exact H.
Qed.

Lemma glow_run_mono (tr : list (R * event)) (w : world) :
  isGlowing (app w) = true -> isGlowing (app (run tr w)) = true.
Proof.
  revert w. induction tr as [|te tr IH]; intros w H; [exact H|].
  rewrite run_cons. apply IH, glow_step_mono, H.
Qed.

(** ** The modal and the dead flag *)

Lemma handle_dead (e : event) (w : world) :
  dead (app (handle e w)) = dead (app w).
Proof.
  destruct (fires e w) eqn:H.
  - apply handle_fires. exact H.
  - apply handle_quiet. exact H.
Qed.

Lemma handle_click_shown (ans : answer) (w : world) :
  showIntro (app w) = true ->
  handle (Click ans) w
  = setTimeout SetDead dead_delay_ms (with_app (setShowIntro false) w).
Proof.
  intros H. rewrite handle_unchanged_scrubs; simpl; rewrite H; reflexivity.
Qed.

Lemma handle_modal (e : event) (w : world) :
  (showIntro (app (handle e w)) = showIntro (app w)
   /\ set_deads (handle e w) = set_deads w)
  \/ (exists ans, e = Click ans /\ showIntro (app w) = true).
Proof.
  destruct (fires e w) eqn:Hf.
  - left. destruct (handle_fires e w Hf) as (_ & _ & Hi & _ & _ & _ & _ & Ht).
    split; [exact Hi|]. unfold set_deads. rewrite Ht.
    apply filter_insert_other. reflexivity.
  - destruct (handle_quiet e w Hf) as (-> & _).
    destruct e as [pos| | | |ans]; simpl in *.
    + left. destruct (dragging (sponge w)) eqn:Hd; simpl in Hf.
      * rewrite (useFrame_drag _ _ Hd), (drag_step_quiet _ _ Hf). auto.
      * rewrite (useFrame_idle _ _ Hd).
        destruct (idle_step_frame w) as (_ & H2 & H3 & _).
        unfold set_deads. rewrite H2, H3. auto.
    + left. auto.
    + left. auto.
    + left. auto.
    + destruct (showIntro (app w)) eqn:Hi; [right; exists ans; auto|left; auto].
Qed.

Lemma intro_inv_step (te : R * event) (w : world) :
  intro_inv w -> intro_inv (step te w).
Proof.
  unfold intro_inv, step. intros H Hs.
  destruct (advance_frame (fst te) w) as (_ & _ & _ & Hi & _).
  destruct (handle_modal (snd te) (advance (fst te) w)) as [[H1 H2]|(ans & He & _)].
  - rewrite H1, Hi in Hs. destruct (H Hs) as [Hd Hq].
    rewrite handle_dead, H2, advance_dead, advance_set_deads, Hq, Hd. auto.
  - rewrite He in Hs. simpl in Hs. unfold handle in Hs.
    destruct (render_commit_frame (scrubs (app (advance (fst te) w)))
                (dispatch (Click ans) (advance (fst te) w)))
      as (_ & _ & _ & _ & _ & H6 & _).
    rewrite H6 in Hs. simpl in Hs.
    destruct (showIntro (app (advance (fst te) w))) eqn:E.
    + simpl in Hs. discriminate.
    + rewrite E in Hs. discriminate.
Qed.

Lemma intro_inv_reachable (w : world) : reachable w -> intro_inv w.
Proof.
  induction 1 as [t0|w te _ IH]; [|apply intro_inv_step, IH].
  intros _. split; reflexivity.
Qed.

(** The click on either button, in a state where the modal is shown. *)
Lemma click_dying (ans : answer) (t : R) (w : world) :
  intro_inv w -> showIntro (app w) = true ->
  dying (Rmax (clock w) t + dead_delay_ms) (step (t, Click ans) w).
Proof.
  intros Hi Hs. unfold step. simpl.
  destruct (advance_frame t w) as (Hk & _ & _ & Hi' & _).
  destruct (Hi Hs) as [Hd Hq].
  rewrite handle_click_shown by (rewrite Hi'; exact Hs).
  unfold dying, set_deads. simpl.
  rewrite advance_dead, Hq, Hd, Hk. simpl.
  split; [reflexivity|]. split; [reflexivity|].
  split; [unfold dead_delay_ms; lra|].
  apply filter_insert_first; [reflexivity|].
  fold (set_deads (advance t w)). rewrite advance_set_deads, Hq. reflexivity.
Qed.

Lemma dying_step (d : R) (te : R * event) (w : world) :
  dying d w -> fst te < d -> dying d (step te w).
Proof.
  intros (Hi & Hd & Hk & Hq) Ht. unfold dying, step.
  destruct (advance_frame (fst te) w) as (Hk' & _ & _ & Hi' & _).
  assert (Hm : Rmax (clock w) (fst te) < d) by (apply Rmax_lub_lt; assumption).
  assert (Hq' : set_deads (advance (fst te) w) = [Timer d SetDead]).
  { rewrite advance_set_deads, Hq. simpl.
    rewrite is_due_timer, (proj2 (Rleb_false _ _) Hm). reflexivity. }
  assert (Hd' : dead (app (advance (fst te) w)) = false).
  { rewrite advance_dead, Hq, Hd. simpl.
    rewrite is_due_timer, (proj2 (Rleb_false _ _) Hm). reflexivity. }
  rewrite handle_dead, handle_clock, Hk'.
  destruct (handle_modal (snd te) (advance (fst te) w)) as [[H1 H2]|(ans & _ & H)].
  - rewrite H1, H2, Hi', Hi. auto.
  - congruence.
Qed.

Lemma dying_run (d : R) (tr : list (R * event)) (w : world) :
  dying d w -> stamps_before d tr -> dying d (run tr w).
Proof.
  revert w. induction tr as [|te tr IH]; intros w Hd Hs; [exact Hd|].
  inversion Hs as [|? ? Ht Hs']; subst.
  rewrite run_cons. apply IH; [apply dying_step; assumption|exact Hs'].
Qed.

Lemma dying_doomed (d : R) (w : world) : dying d w -> doomed d w.
Proof.
  intros (Hi & _ & _ & Hq). split; [exact Hi|]. right.
  rewrite Hq. simpl. rewrite is_due_timer.
  rewrite (proj2 (Rleb_true d d)) by lra. reflexivity.
Qed.

Lemma existsb_due_advance (d t : R) (l : list timer) :
  existsb (is_due d) l = true ->
  existsb (is_due t) l = true
  \/ existsb (is_due d) (filter (fun tm => negb (is_due t tm)) l) = true.
Proof.
  induction l as [|tm l IH]; simpl; [discriminate|].
  destruct (is_due t tm) eqn:E; simpl; [auto|].
  destruct (is_due d tm); simpl; [auto|exact IH].
Qed.

Lemma doomed_step (d : R) (te : R * event) (w : world) :
  doomed d w -> doomed d (step te w).
Proof.
  intros (Hi & Hd). unfold doomed, step.
  destruct (advance_frame (fst te) w) as (_ & _ & _ & Hi' & _).
  rewrite handle_dead.
  destruct (handle_modal (snd te) (advance (fst te) w)) as [[H1 H2]|(ans & _ & H)];
    [|congruence].
  rewrite H1, H2, Hi', advance_dead, advance_set_deads.
  split; [exact Hi|].
  destruct Hd as [Hd|Hd]; [left; rewrite Hd; apply orb_true_r|].
  destruct (existsb_due_advance d (Rmax (clock w) (fst te)) _ Hd) as [E|E].
  - left. rewrite E. reflexivity.
  - right. exact E.
Qed.

Lemma doomed_run (d : R) (tr : list (R * event)) (w : world) :
  doomed d w -> doomed d (run tr w).
Proof.
  revert w. induction tr as [|te tr IH]; intros w H; [exact H|].
  rewrite run_cons. apply IH, doomed_step, H.
Qed.

Lemma existsb_due_mono (d t : R) (l : list timer) :
  d <= t -> existsb (is_due d) l = true -> existsb (is_due t) l = true.
Proof.
  intros Hle. rewrite !existsb_exists. intros (tm & Hin & Hdue).
  exists tm. split; [exact Hin|]. apply (is_due_mono d); assumption.
Qed.

Lemma doomed_dead (d t : R) (w : world) :
  doomed d w -> d <= t -> dead (app (advance t w)) = true.
Proof.
  intros (_ & [Hd|Hd]) Ht; rewrite advance_dead.
  - rewrite Hd. apply orb_true_r.
  - rewrite (existsb_due_mono d (Rmax (clock w) t)); [reflexivity| |exact Hd].
    apply Rle_trans with t; [exact Ht|apply Rmax_r].
Qed.

Lemma dead_step_mono (te : R * event) (w : world) :
  dead (app w) = true -> dead (app (step te w)) = true.
Proof.
  intros H. unfold step. rewrite handle_dead, advance_dead, H. apply orb_true_r.
Qed.

(** ** The stored position *)

Lemma handle_position (e : event) (w : world) :
  position (sponge (handle e w))
  = match e with
    | Frame pos => if dragging (sponge w) then newPos_of pos else position (sponge w)
    | _ => position (sponge w)
    end.
Proof.
  unfold handle.
  destruct (render_commit_frame (scrubs (app w)) (dispatch e w)) as (_ & -> & _).
  destruct e as [pos| | | |ans]; simpl; try reflexivity.
  - destruct (dragging (sponge w)) eqn:Hd.
    + rewrite (useFrame_drag _ _ Hd). unfold drag_step.
      destruct (scrub_test _ _); reflexivity.
    + rewrite (useFrame_idle _ _ Hd). apply idle_step_frame.
  - destruct (showIntro (app w)); reflexivity.
Qed.

Lemma y_inv_step (te : R * event) (w : world) : y_inv w -> y_inv (step te w).
Proof.
  unfold y_inv, step. intros H. rewrite handle_position.
  destruct (advance_frame (fst te) w) as (_ & _ & _ & _ & _ & Hd & Hp & _).
  rewrite Hp.
  destruct (snd te) as [pos| | | |ans]; try exact H.
  destruct (dragging _); [apply newPos_y_range|exact H].
Qed.

Lemma y_inv_run (tr : list (R * event)) (w : world) :
  y_inv w -> y_inv (run tr w).
Proof.
  revert w. induction tr as [|te tr IH]; intros w H; [exact H|].
  rewrite run_cons. apply IH, y_inv_step, H.
Qed.

Lemma y_inv_reachable (w : world) : reachable w -> y_inv w.
Proof.
  induction 1 as [t0|w te _ IH]; [|apply y_inv_step, IH].
  unfold y_inv. simpl. lra.
Qed.

(** ** The idle path *)

Lemma handle_idle (pos : vec3) (w : world) :
  dragging (sponge w) = false -> handle (Frame pos) w = idle_step w.
Proof.
  intros Hd.
  assert (Hf : fires (Frame pos) w = false) by (simpl; rewrite Hd; reflexivity).
  destruct (handle_quiet _ _ Hf) as (-> & _). simpl.
  apply useFrame_idle. exact Hd.
Qed.

Lemma idle_step_ref (w : world) (m : Mesh) :
  ref (sponge w) = Some m ->
  ref (sponge (idle_step w))
  = Some (mkMesh (Vec3 (vx (mesh_position m))
                       (vy (position (sponge w)) + idle_offset (clock w))
                       (vz (mesh_position m)))
                 (rotation_z m + 0.01)).
Proof. intros H. unfold idle_step. rewrite H. reflexivity. Qed.

Lemma idle_step_unmounted (w : world) :
  ref (sponge w) = None -> idle_step w = w.
Proof. intros H. unfold idle_step. rewrite H. reflexivity. Qed.

Lemma dispatch_dragging (e : event) (w : world) :
  no_pointer_down e = true -> dragging (sponge w) = false ->
  dragging (sponge (handle e w)) = false.
Proof.
  intros He Hd.
  assert (Hf : fires e w = false).
  { destruct e; try reflexivity. simpl. rewrite Hd. reflexivity. }
  destruct (handle_quiet _ _ Hf) as (-> & _).
  destruct e as [pos| | | |ans]; simpl in *; try reflexivity.
  - rewrite (useFrame_idle _ _ Hd).
    destruct (idle_step_frame w) as (_ & _ & _ & _ & _ & -> & _). exact Hd.
  - discriminate.
  - destruct (showIntro (app w)); exact Hd.
Qed.

Lemma idle_run (tr : list (R * event)) (w : world) :
  dragging (sponge w) = false ->
  Forall (fun te => no_pointer_down (snd te) = true) tr ->
  scrubs (app (run tr w)) = scrubs (app w)
  /\ played (run tr w) = played w
  /\ dragging (sponge (run tr w)) = false.
Proof.
  revert w. induction tr as [|te tr IH]; intros w Hd Hs; [auto|].
  inversion Hs as [|? ? He Hs']; subst. rewrite run_cons.
  destruct (advance_frame (fst te) w) as (_ & Hs0 & _ & _ & _ & Hd0 & _ & Hp0 & _).
  assert (Hd1 : dragging (sponge (advance (fst te) w)) = false) by congruence.
  assert (Hf : fires (snd te) (advance (fst te) w) = false).
  { destruct (snd te); try reflexivity. simpl. rewrite Hd1. reflexivity. }
  destruct (handle_quiet _ _ Hf) as (_ & _ & Hs1 & _ & _ & Hp1 & _).
  destruct (IH (step te w)) as (H1 & H2 & H3).
  - apply dispatch_dragging; assumption.
  - exact Hs'.
  - unfold step in *. rewrite H1, H2, Hs1, Hp1, Hs0, Hp0. auto.
Qed.

(** ** The grabbed sponge *)

Lemma grabbed_state :
  reachable grabbed
  /\ dragging (sponge grabbed) = true
  /\ scrubCooldown (sponge grabbed) = false
  /\ scrubs (app grabbed) = 0%nat
  /\ showIntro (app grabbed) = true
  /\ clock grabbed = 0.
Proof.
  split; [apply reach_step, reach_init|].
  unfold grabbed, step. cbn [fst snd].
  assert (Hf : fires PointerDown (advance 0 (init 0)) = false) by reflexivity.
  destruct (handle_quiet _ _ Hf) as (He & Hk & Hs & _ & _ & _ & _ & Hc & _).
  destruct (advance_frame 0 (init 0)) as (Hk0 & Hs0 & _ & Hi0 & _).
  rewrite Hk, Hs, Hc, Hk0, Hs0, He.
  split; [reflexivity|].
  split; [apply advance_stays_free; reflexivity|].
  split; [reflexivity|].
  split; [change (showIntro (app (advance 0 (init 0))) = true);
          rewrite Hi0; reflexivity|].
  simpl. apply Rmax_left. lra.
Qed.

Lemma centre_clamped : newPos_of crow_centre = Vec3 0 (-0.3) 0.
Proof.
  unfold newPos_of, crow_centre. simpl. rewrite clamp_below by lra. reflexivity.
Qed.

Lemma centre_dist : dist_of (newPos_of crow_centre) = 0.3.
Proof.
  rewrite centre_clamped. apply dist_eq_of_square; [lra|].
  unfold dist2_of. simpl. lra.
Qed.

(** ** C4: the threshold *)

(** C4, as the spec states it, fails: a frame whose world position is
    exactly the crow centre does not see distance 0.  The clamp of line
    107 lifts the sponge to height -0.3, and the distance computed at
    line 114 is 0.3. *)
Lemma C4_centre_distance_not_zero :
  newPos_of crow_centre = Vec3 0 (-0.3) 0
  /\ dist_of (newPos_of crow_centre) = 0.3
  /\ dist_of (newPos_of crow_centre) <> 0.
Proof.
  split; [apply centre_clamped|]. rewrite centre_dist. split; [reflexivity|lra].
Qed.

(** C4, amended: while dragging, the trigger compares the distance between
    the clamped sponge position and the crow centre strictly with the
    radius.  The clamped sponge is never at the centre and its distance is
    at least 0.3; with the world position exactly at the centre the
    distance is 0.3, below the radius, so a scrub fires when no cooldown is
    active; a distance equal to or above the radius fires nothing; and the
    counter changes only when the distance is strictly below the radius. *)
Theorem C4_strict_threshold (w : world) (t : R) (pos : vec3) :
  dragging (sponge w) = true ->
  let w0 := advance t w in
  let w1 := step (t, Frame pos) w in
  (0.3 <= dist_of (newPos_of pos) /\ newPos_of pos <> crow_centre)
  /\ (pos = crow_centre ->
      dist_of (newPos_of pos) = 0.3 /\ dist_of (newPos_of pos) < radius)
  /\ (dist_of (newPos_of pos) < radius ->
      scrubCooldown (sponge w0) = false ->
      scrubs (app w1) = S (scrubs (app w)))
  /\ (radius <= dist_of (newPos_of pos) ->
      scrubs (app w1) = scrubs (app w) /\ played w1 = played w)
  /\ (scrubs (app w1) <> scrubs (app w) -> dist_of (newPos_of pos) < radius).
Proof.
  intros Hd w0 w1.
  destruct (advance_frame t w) as (_ & Hs0 & _ & _ & _ & Hd0 & _ & Hp0 & _).
  fold w0 in Hs0, Hd0, Hp0.
  assert (Hfar : radius <= dist_of (newPos_of pos) ->
                 scrubs (app w1) = scrubs (app w) /\ played w1 = played w).
  { intros Hr.
    assert (Hf : fires (Frame pos) w0 = false).
    { simpl. rewrite (scrub_test_far _ _ Hr). apply andb_false_r. }
    destruct (handle_quiet _ _ Hf) as (_ & _ & Hs1 & _ & _ & Hp1 & _).
    unfold w1, step. cbn [fst snd]. fold w0. rewrite Hs1, Hp1. auto. }
  split; [|split; [|split; [|split]]].
  - split; [apply dist_clamped_ge|].
    intros E. pose proof (newPos_y_range pos) as Hy. rewrite E in Hy.
    simpl in Hy. lra.
  - intros ->. rewrite centre_dist. unfold radius. split; [reflexivity|lra].
  - intros Hn Hc. unfold w1. rewrite step_scrubs. cbn [fst snd]. fold w0.
    simpl. rewrite Hd0, Hd. simpl.
    rewrite (proj2 (scrub_test_true _ _)) by auto. reflexivity.
  - exact Hfar.
  - intros Hne. destruct (Rlt_dec (dist_of (newPos_of pos)) radius) as [|Hge];
      [assumption|].
    exfalso. apply Hne. apply Hfar. lra.
Qed.

Lemma C4_strict_threshold_witness :
  dragging (sponge grabbed) = true
  /\ scrubs (app (step (0, Frame crow_centre) grabbed)) = S (scrubs (app grabbed))
  /\ scrubs (app (step (0, Frame (Vec3 2 0 0)) grabbed)) = scrubs (app grabbed).
Proof.
  destruct grabbed_state as (_ & Hd & Hc & _).
  split; [exact Hd|]. split.
  - destruct (C4_strict_threshold grabbed 0 crow_centre Hd)
      as (_ & H0 & H1 & _).
    apply H1; [apply H0; reflexivity|].
    apply advance_stays_free. exact Hc.
  - destruct (C4_strict_threshold grabbed 0 (Vec3 2 0 0) Hd)
      as (_ & _ & _ & H & _).
    apply H. apply dist_ge_iff; [unfold radius; lra|].
    unfold dist2_of, newPos_of, radius. simpl.
    rewrite clamp_inside by lra. lra.
Defined.

(** ** C9: the clamp *)

(** C9: in every frame of a drag the stored position is the world position
    with its height clamped to [-0.3, 1.2]: heights inside the interval are
    kept, lower ones become -0.3, higher ones 1.2.  From the first render
    on, through any events, the height of the stored position stays in the
    interval. *)
Theorem C9_drag_height_clamped (w : world) (t : R) (pos : vec3) :
  reachable w ->
  dragging (sponge w) = true ->
  let p := position (sponge (step (t, Frame pos) w)) in
  vx p = vx pos /\ vz p = vz pos
  /\ vy p = Math.max (-0.3) (Math.min 1.2 (vy pos))
  /\ -0.3 <= vy p <= 1.2
  /\ (-0.3 <= vy pos <= 1.2 -> vy p = vy pos)
  /\ (vy pos <= -0.3 -> vy p = -0.3)
  /\ (1.2 <= vy pos -> vy p = 1.2)
  /\ y_inv w
  /\ forall tr, y_inv (run tr (step (t, Frame pos) w)).
Proof.
  intros Hr Hd p.
  assert (Hp : p = newPos_of pos).
  { unfold p, step. cbn [fst snd]. rewrite handle_position.
    destruct (advance_frame t w) as (_ & _ & _ & _ & _ & -> & _).
    rewrite Hd. reflexivity. }
  rewrite Hp. simpl.
  split; [reflexivity|]. split; [reflexivity|]. split; [reflexivity|].
  split; [apply clamp_range|]. split; [apply clamp_inside|].
  split; [apply clamp_below|]. split; [apply clamp_above|].
  split; [apply y_inv_reachable, Hr|].
  intros tr. apply y_inv_run, y_inv_step, y_inv_reachable, Hr.
Qed.

Lemma C9_drag_height_clamped_witness :
  reachable grabbed
  /\ dragging (sponge grabbed) = true
  /\ vy (position (sponge (step (16, Frame (Vec3 0 5 0)) grabbed))) = 1.2.
Proof.
  destruct grabbed_state as (Hr & Hd & _).
  split; [exact Hr|]. split; [exact Hd|].
  destruct (C9_drag_height_clamped grabbed 16 (Vec3 0 5 0) Hr Hd)
    as (_ & _ & _ & _ & _ & _ & H & _).
  apply H. simpl. lra.
Defined.

(** ** C7: the idle path *)

(** C7: a frame that runs while no drag is active takes the idle path.  It
    fires no scrub, wherever the pointer's world position is: counter,
    sounds, application flags, timers, cooldown and stored position are
    left alone.  What it writes is the mounted mesh: the rotation grows by
    0.01 and the height becomes the stored height plus
    [sin (now / 700) * 0.02].  Through any events other than a press the
    counter and the sounds stay as they are. *)
Theorem C7_idle_never_scrubs (w : world) (t : R) (pos : vec3) :
  dragging (sponge w) = false ->
  let w0 := advance t w in
  let w1 := step (t, Frame pos) w in
  scrubs (app w1) = scrubs (app w)
  /\ played w1 = played w
  /\ app w1 = app w0
  /\ timers w1 = timers w0
  /\ scrubCooldown (sponge w1) = scrubCooldown (sponge w0)
  /\ position (sponge w1) = position (sponge w)
  /\ (forall m, ref (sponge w) = Some m ->
        ref (sponge w1)
        = Some (mkMesh (Vec3 (vx (mesh_position m))
                             (vy (position (sponge w))
                              + Math.sin (clock w1 / 700) * 0.02)
                             (vz (mesh_position m)))
                       (rotation_z m + 0.01)))
  /\ (ref (sponge w) = None -> w1 = w0)
  /\ (forall tr, Forall (fun te => no_pointer_down (snd te) = true) tr ->
        scrubs (app (run tr w)) = scrubs (app w)
        /\ played (run tr w) = played w).
Proof.
  intros Hd w0 w1.
  destruct (advance_frame t w) as (Hk0 & Hs0 & _ & _ & Hr0 & Hd0 & Hp0 & Hpl0 & _).
  fold w0 in Hk0, Hs0, Hr0, Hd0, Hp0, Hpl0.
  assert (Hd1 : dragging (sponge w0) = false) by congruence.
  assert (E : w1 = idle_step w0).
  { unfold w1, step. cbn [fst snd]. apply handle_idle. exact Hd1. }
  destruct (idle_step_frame w0) as (I1 & I2 & I3 & I4 & I5 & I6 & I7 & I8 & I9).
  rewrite E, I2, I3, I4, I7, I8, Hs0, Hpl0, Hp0.
  repeat (split; [reflexivity|]).
  split; [|split].
  - intros m Hm. rewrite (idle_step_ref w0 m) by congruence.
    rewrite I1, Hp0. reflexivity.
  - intros Hn. apply idle_step_unmounted. congruence.
  - intros tr Htr. destruct (idle_run tr w Hd Htr) as (H1 & H2 & _). auto.
Qed.

Lemma C7_idle_never_scrubs_witness :
  dragging (sponge (init 0)) = false
  /\ scrubs (app (step (16, Frame crow_centre) (init 0))) = 0%nat
  /\ played (step (16, Frame crow_centre) (init 0)) = [].
Proof.
  split; [reflexivity|].
  destruct (C7_idle_never_scrubs (init 0) 16 crow_centre eq_refl)
    as (H1 & H2 & _).
  split; [exact H1|exact H2].
Defined.

(** ** C8: the idle offset *)

(** C8: in a frame without a drag, the offset of the mounted mesh from the
    stored height is [sin (now / 700) * 0.02], a function of the elapsed
    time alone.  Two frames at the same elapsed time give the same offset,
    whatever else differs between the two states and whatever the pointer's
    world position is, and a second frame at the same time leaves the
    height of the mesh where the first one put it. *)
Theorem C8_idle_offset_pure (w1 w2 : world) (pos1 pos2 : vec3) :
  dragging (sponge w1) = false ->
  dragging (sponge w2) = false ->
  ref (sponge w1) <> None ->
  ref (sponge w2) <> None ->
  clock w1 = clock w2 ->
  vertical_offset (handle (Frame pos1) w1) = Some (idle_offset (clock w1))
  /\ vertical_offset (handle (Frame pos1) w1)
     = vertical_offset (handle (Frame pos2) w2)
  /\ mesh_y (handle (Frame pos2) (handle (Frame pos1) w1))
     = mesh_y (handle (Frame pos1) w1).
Proof.
  intros Hd1 Hd2 Hr1 Hr2 Hk.
  assert (Hoff : forall w pos, dragging (sponge w) = false ->
                   ref (sponge w) <> None ->
                   vertical_offset (handle (Frame pos) w)
                   = Some (idle_offset (clock w))).
  { intros w pos Hd Hr. rewrite (handle_idle pos w Hd).
    destruct (ref (sponge w)) as [m|] eqn:Hm; [|congruence].
    unfold vertical_offset. rewrite (idle_step_ref w m Hm).
    destruct (idle_step_frame w) as (_ & _ & _ & _ & _ & _ & -> & _).
    simpl. f_equal. lra. }
  split; [apply Hoff; assumption|].
  split; [rewrite !Hoff by assumption; rewrite Hk; reflexivity|].
  rewrite (handle_idle pos1 w1 Hd1).
  destruct (idle_step_frame w1) as (Ik & _ & _ & _ & _ & Id & Ip & _).
  rewrite (handle_idle pos2 (idle_step w1)) by congruence.
  destruct (ref (sponge w1)) as [m|] eqn:Hm; [|congruence].
  unfold mesh_y.
  rewrite (idle_step_ref (idle_step w1) _ (idle_step_ref w1 m Hm)).
  rewrite (idle_step_ref w1 m Hm), Ik, Ip. reflexivity.
Qed.

Lemma C8_idle_offset_pure_witness :
  dragging (sponge (init 1400)) = false
  /\ dragging (sponge (handle (Click yes) (init 1400))) = false
  /\ clock (init 1400) = clock (handle (Click yes) (init 1400))
  /\ vertical_offset (handle (Frame crow_centre) (init 1400))
     = vertical_offset (handle (Frame (Vec3 1 1 1)) (handle (Click yes) (init 1400))).
Proof.
  assert (H1 : dragging (sponge (init 1400)) = false) by reflexivity.
  assert (H2 : dragging (sponge (handle (Click yes) (init 1400))) = false)
    by reflexivity.
  assert (H3 : ref (sponge (init 1400)) <> None) by discriminate.
  assert (H4 : ref (sponge (handle (Click yes) (init 1400))) <> None)
    by discriminate.
  assert (H5 : clock (init 1400) = clock (handle (Click yes) (init 1400)))
    by reflexivity.
  split; [exact H1|]. split; [exact H2|]. split; [exact H5|].
  exact (proj1 (proj2 (C8_idle_offset_pure (init 1400)
                         (handle (Click yes) (init 1400))
                         crow_centre (Vec3 1 1 1) H1 H2 H3 H4 H5))).
Defined.

(** ** C6: what a trigger changes *)

(** C6: when the frame callback of a drag finds the sponge within the
    radius and no cooldown active, the callback itself adds exactly one to
    the scrub counter and plays the splash and the caw, these two sounds
    and no other; it leaves the glow, intro-shown and dead flags as they
    are.  The render that follows keeps intro-shown and dead as well, and
    derives the glow flag from the new count. *)
Theorem C6_trigger_effects (w : world) (pos : vec3) :
  dragging (sponge w) = true ->
  dist_of (newPos_of pos) < radius ->
  scrubCooldown (sponge w) = false ->
  let w' := dispatch (Frame pos) w in
  let w1 := handle (Frame pos) w in
  app w' = handleScrub (app w)
  /\ scrubs (app w') = S (scrubs (app w))
  /\ isGlowing (app w') = isGlowing (app w)
  /\ showIntro (app w') = showIntro (app w)
  /\ dead (app w') = dead (app w)
  /\ played w' = played w ++ [splashSound; cawSound]
  /\ scrubs (app w1) = S (scrubs (app w))
  /\ showIntro (app w1) = showIntro (app w)
  /\ dead (app w1) = dead (app w)
  /\ played w1 = played w ++ [splashSound; cawSound]
  /\ isGlowing (app w1)
     = (threshold <=? S (scrubs (app w)))%nat || isGlowing (app w).
Proof.
  intros Hd Hn Hc w' w1.
  assert (Hf : fires (Frame pos) w = true).
  { simpl. rewrite Hd. apply scrub_test_true. auto. }
  destruct (dispatch_fires _ _ Hf) as (pos' & Hp & He).
  injection Hp as <-. fold w' in He.
  destruct (handle_fires _ _ Hf) as (_ & H2 & H3 & H4 & H5 & _).
  fold w1 in H2, H3, H4, H5.
  rewrite He. simpl.
  rewrite <- app_assoc, Nat.add_1_r.
  repeat (split; [reflexivity|]).
  repeat (split; [assumption|]).
  apply handle_fires_glow. exact Hf.
Qed.

Lemma C6_trigger_effects_witness :
  dragging (sponge grabbed) = true
  /\ scrubCooldown (sponge grabbed) = false
  /\ played (handle (Frame crow_centre) grabbed)
     = played grabbed ++ [splashSound; cawSound].
Proof.
  destruct grabbed_state as (_ & Hd & Hc & _).
  split; [exact Hd|]. split; [exact Hc|].
  assert (Hn : dist_of (newPos_of crow_centre) < radius)
    by (rewrite centre_dist; unfold radius; lra).
  destruct (C6_trigger_effects grabbed crow_centre Hd Hn Hc)
    as (_ & _ & _ & _ & _ & _ & _ & _ & _ & H & _).
  exact H.
Defined.

(** ** Frames of a drag *)

Lemma step_frame_dragging (t : R) (pos : vec3) (w : world) :
  dragging (sponge (step (t, Frame pos) w)) = dragging (sponge w).
Proof.
  unfold step. cbn [fst snd].
  destruct (advance_frame t w) as (_ & _ & _ & _ & _ & Hd & _).
  destruct (fires (Frame pos) (advance t w)) eqn:Hf.
  - destruct (handle_fires _ _ Hf) as (_ & _ & _ & _ & _ & _ & -> & _).
    destruct (fires_frame _ _ Hf) as (_ & _ & H & _). congruence.
  - destruct (handle_quiet _ _ Hf) as (-> & _). simpl.
    destruct (dragging (sponge (advance t w))) eqn:E.
    + simpl in Hf. rewrite E in Hf. simpl in Hf.
      rewrite (useFrame_drag _ _ E), (drag_step_quiet _ _ Hf). simpl. congruence.
    + rewrite (useFrame_idle _ _ E).
      destruct (idle_step_frame (advance t w)) as (_ & _ & _ & _ & _ & -> & _).
      congruence.
Qed.

(** A pending release is due within the cooldown from now. *)
Lemma release_bound (w : world) :
  reachable w ->
  Forall (fun tm => due tm <= clock w + cooldown_ms) (releases w).
Proof.
  induction 1 as [t0|w te Hr IH]; [constructor|].
  pose proof (cool_inv_advance (fst te) w (cool_inv_reachable w Hr)) as Hi.
  unfold step.
  assert (Ha : Forall (fun tm => due tm <= clock (advance (fst te) w) + cooldown_ms)
                      (releases (advance (fst te) w))).
  { rewrite advance_releases.
    destruct (advance_frame (fst te) w) as (-> & _).
    apply Forall_forall. intros tm Hin. apply filter_In in Hin.
    destruct Hin as [Hin _].
    pose proof (proj1 (Forall_forall _ _) IH tm Hin) as Hb. simpl in Hb.
    pose proof (Rmax_l (clock w) (fst te)). lra. }
  destruct (fires (snd te) (advance (fst te) w)) eqn:Hf.
  - rewrite (handle_fires_releases _ _ Hi Hf), handle_clock.
    constructor; [simpl; lra|constructor].
  - destruct (handle_quiet _ _ Hf) as (_ & Hk & _ & _ & _ & _ & _ & _ & Hrel).
    rewrite Hrel, Hk. exact Ha.
Qed.

(** ** Proximity events *)

Lemma step_dragging (te : R * event) (w : world) :
  dragging (sponge (step te w))
  = match snd te with
    | Frame _ | Click _ => dragging (sponge w)
    | PointerDown => true
    | PointerUp | PointerLeave => false
    end.
Proof.
  destruct te as [t e].
  destruct e as [pos| | | |ans]; cbn [snd]; [apply step_frame_dragging|..];
    unfold step; cbn [fst snd];
    match goal with
    | |- context [handle ?e ?w0] =>
        assert (Hf : fires e w0 = false) by reflexivity;
        destruct (handle_quiet _ _ Hf) as (-> & _)
    end; try reflexivity.
  destruct (advance_frame t w) as (_ & _ & _ & _ & _ & Hd & _).
  simpl. destruct (showIntro (app (advance t w))); exact Hd.
Qed.

Lemma cooled_by_advance (b t : R) (w : world) :
  cooled_by b w -> cooled_by b (advance t w).
Proof.
  unfold cooled_by. intros H. rewrite advance_releases.
  apply Forall_forall. intros tm Hin. apply filter_In in Hin.
  apply (proj1 (Forall_forall _ _) H). apply Hin.
Qed.

Lemma cooled_by_quiet (b : R) (te : R * event) (w : world) :
  cooled_by b w ->
  fires (snd te) (advance (fst te) w) = false ->
  cooled_by b (step te w).
Proof.
  intros H Hf. unfold cooled_by, step.
  destruct (handle_quiet _ _ Hf) as (_ & _ & _ & _ & _ & _ & _ & _ & ->).
  apply cooled_by_advance, H.
Qed.

Lemma fires_proximity (t : R) (pos : vec3) (w : world) :
  cool_inv w -> cooled_by t w ->
  fires (Frame pos) (advance t w) = dragging (sponge w) && within_radius pos.
Proof.
  intros Hi Hc. unfold fires, scrub_test, within_radius.
  destruct (advance_frame t w) as (_ & _ & _ & _ & _ & -> & _).
  rewrite (advance_free t w Hi Hc). rewrite andb_true_r. reflexivity.
Qed.

(** The counter grows by the number of proximity events when these are
    spaced beyond the cooldown, whatever else happens in between. *)
Lemma proximity_count (tr : list (R * event)) :
  forall (w : world) (b : R),
    cool_inv w ->
    stamped_from (clock w) tr ->
    cooled_by b w ->
    spaced_after b (proximity_events (dragging (sponge w)) tr) ->
    scrubs (app (run tr w))
    = (scrubs (app w)
       + List.length (proximity_events (dragging (sponge w)) tr))%nat.
Proof.
  induction tr as [|[t e] tr IH]; intros w b Hi Hst Hc Hsp.
  - simpl. rewrite Nat.add_0_r. reflexivity.
  - destruct Hst as [Hle Hst]. rewrite run_cons.
    assert (Hk : clock (step (t, e) w) = t).
    { rewrite step_clock. apply Rmax_right. exact Hle. }
    pose proof (cool_inv_step (t, e) w Hi) as Hi1.
    pose proof (step_dragging (t, e) w) as Hd. cbn [snd] in Hd.
    pose proof (step_scrubs (t, e) w) as Hs. cbn [fst snd] in Hs.
    rewrite <- Hk in Hst.
    destruct e as [pos| | | |ans]; cbn [proximity_events] in Hsp |- *.
    + destruct (dragging (sponge w) && within_radius pos) eqn:E.
      * destruct Hsp as [Hb Hsp].
        assert (Hct : cooled_by t w).
        { eapply Forall_impl; [|exact Hc]. simpl. intros tm H. lra. }
        assert (Hf : fires (Frame pos) (advance t w) = true)
          by (rewrite (fires_proximity t pos w Hi Hct); exact E).
        rewrite Hf in Hs.
        rewrite (IH _ (t + cooldown_ms) Hi1 Hst); rewrite ?Hd.
        -- rewrite Hs. simpl. lia.
        -- unfold cooled_by, step. cbn [fst snd].
           rewrite (handle_fires_releases _ _ (cool_inv_advance t w Hi) Hf).
           destruct (advance_frame t w) as (-> & _).
           rewrite Rmax_right by exact Hle.
           constructor; [simpl; lra|constructor].
        -- exact Hsp.
      * assert (Hf : fires (Frame pos) (advance t w) = false).
        { unfold fires. destruct (advance_frame t w) as (_ & _ & _ & _ & _ & -> & _).
          apply andb_false_iff in E. destruct E as [E|E].
          - rewrite E. reflexivity.
          - unfold scrub_test. unfold within_radius in E. rewrite E.
            apply andb_false_r. }
        rewrite Hf in Hs.
        rewrite (IH _ b Hi1 Hst); rewrite ?Hd.
        -- rewrite Hs. reflexivity.
        -- apply (cooled_by_quiet b (t, Frame pos)); assumption.
        -- exact Hsp.
    + rewrite (IH _ b Hi1 Hst); rewrite ?Hd.
      * rewrite Hs. reflexivity.
      * apply (cooled_by_quiet b (t, PointerDown)); [assumption|reflexivity].
      * exact Hsp.
    + rewrite (IH _ b Hi1 Hst); rewrite ?Hd.
      * rewrite Hs. reflexivity.
      * apply (cooled_by_quiet b (t, PointerUp)); [assumption|reflexivity].
      * exact Hsp.
    + rewrite (IH _ b Hi1 Hst); rewrite ?Hd.
      * rewrite Hs. reflexivity.
      * apply (cooled_by_quiet b (t, PointerLeave)); [assumption|reflexivity].
      * exact Hsp.
    + rewrite (IH _ b Hi1 Hst); rewrite ?Hd.
      * rewrite Hs. reflexivity.
      * apply (cooled_by_quiet b (t, Click ans)); [assumption|reflexivity].
      * exact Hsp.
Qed.

Lemma proximity_events_press (d : bool) (t : R) (tr : list (R * event)) :
  proximity_events d ((t, PointerDown) :: tr) = proximity_events true tr.
Proof. reflexivity. Qed.

Lemma near_centre_within : within_radius crow_centre = true.
Proof. apply Rltb_true. apply near_centre. Qed.

Lemma far_two : within_radius (Vec3 2 0 0) = false.
Proof.
  apply Rltb_false. apply dist_ge_iff; [unfold radius; lra|].
  unfold dist2_of, newPos_of, radius. simpl. rewrite clamp_inside by lra. lra.
Qed.

Lemma rub_trace_events (n : nat) (t : R) :
  stamped_from t (rub_trace t n)
  /\ List.length (proximity_events true (rub_trace t n)) = n
  /\ forall b, b < t -> spaced_after b (proximity_events true (rub_trace t n)).
Proof.
  revert t. induction n as [|n IH]; intros t; [simpl; auto|].
  destruct (IH (t + 400)) as (H1 & H2 & H3).
  cbn [rub_trace proximity_events andb].
  rewrite !near_centre_within, !far_two.
  cbn [List.length spaced_after stamped_from].
  split; [|split].
  - split; [lra|]. split; [lra|].
    destruct n; [exact I|]. cbn [rub_trace stamped_from] in H1 |- *.
    split; [lra|apply H1].
  - rewrite H2. reflexivity.
  - intros b Hb. split; [exact Hb|]. apply H3. unfold cooldown_ms. lra.
Qed.

(** ** C1: the cooldown *)

Lemma first_scrub_state :
  reachable held_0
  /\ dragging (sponge held_0) = true
  /\ scrubs (app held_0) = 1%nat
  /\ cooling (0 + cooldown_ms) held_0.
Proof.
  unfold held_0. set (w := step (0, Frame crow_centre) grabbed).
  destruct grabbed_state as (Hr & Hd & Hc & Hs & _ & Hk).
  assert (Hi : cool_inv (advance 0 grabbed))
    by apply cool_inv_advance, cool_inv_reachable, Hr.
  assert (Hf : fires (Frame crow_centre) (advance 0 grabbed) = true).
  { unfold fires. destruct (advance_frame 0 grabbed) as (_ & _ & _ & _ & _ & -> & _).
    rewrite Hd, (near_scrub_test _ _ near_centre).
    rewrite (advance_stays_free _ _ Hc). reflexivity. }
  split; [apply reach_step, Hr|].
  split; [unfold w; rewrite step_frame_dragging; exact Hd|].
  split.
  - unfold w. rewrite step_scrubs. cbn [fst snd]. rewrite Hf, Hs. reflexivity.
  - pose proof (fires_cooling _ _ Hi Hf) as H.
    destruct (advance_frame 0 grabbed) as (Hk0 & _).
    rewrite Hk0, Hk, Rmax_left in H by lra. exact H.
Qed.

(** C1, as the spec states it, fails: of two frames near the crow that are
    100 ms apart, the second one adds to the counter and the first one
    does not.  The sponge is held at the crow centre; the frame at 0 ms
    scrubs and starts the cooldown, which ends at 350 ms; the frame at
    300 ms is inside it, the frame at 400 ms is past it. *)
Lemma C1_second_of_two_close_frames_scrubs :
  near crow_centre
  /\ 400 - 300 < cooldown_ms
  /\ scrubs (app held_0) = 1%nat
  /\ scrubs (app held_300) = 1%nat
  /\ scrubs (app held_400) = 2%nat.
Proof.
  destruct first_scrub_state as (Hr & Hd & Hs & Hc).
  split; [apply near_centre|]. split; [unfold cooldown_ms; lra|].
  split; [exact Hs|].
  assert (H300 : 300 < 0 + cooldown_ms) by (unfold cooldown_ms; lra).
  destruct (cooling_step _ (300, Frame crow_centre) held_0 Hc H300)
    as ((_ & Hk1 & Hr1) & Hs1 & _).
  unfold held_400, held_300.
  split; [rewrite Hs1; exact Hs|].
  assert (Hd1 : dragging (sponge (step (300, Frame crow_centre) held_0)) = true)
    by (rewrite step_frame_dragging; exact Hd).
  rewrite <- run_one.
  rewrite (proximity_count _ _ (0 + cooldown_ms)).
  - rewrite Hd1. cbn [proximity_events andb]. rewrite near_centre_within.
    rewrite Hs1, Hs. reflexivity.
  - apply cool_inv_reachable, reach_step, Hr.
  - split; [unfold cooldown_ms in Hk1; lra|exact I].
  - unfold cooled_by. rewrite Hr1. constructor; [simpl; lra|constructor].
  - rewrite Hd1. cbn [proximity_events andb]. rewrite near_centre_within.
    split; [unfold cooldown_ms; lra|exact I].
Qed.

(** C1, amended: in every frame the scrub fires exactly when the drag is
    active, the clamped position is within the radius and the cooldown is
    not active.  While the cooldown is active no scrub fires, even within
    the radius.  A scrub sets the cooldown and schedules its release
    [cooldown_ms] later: until then nothing adds to the counter, and once
    that time is reached the cooldown is over.  So in a window shorter
    than the cooldown at most one frame adds to the counter, and when the
    first of two such frames scrubs the second one does not. *)
Theorem C1_cooldown_debounce (w : world) (t : R) (pos : vec3) :
  reachable w ->
  let w0 := advance t w in
  let w1 := step (t, Frame pos) w in
  let d := clock w1 + cooldown_ms in
  scrubs (app w1)
  = (if dragging (sponge w0)
        && Rltb (dist_of (newPos_of pos)) radius
        && negb (scrubCooldown (sponge w0))
     then S (scrubs (app w)) else scrubs (app w))
  /\ (scrubCooldown (sponge w0) = true ->
      scrubs (app w1) = scrubs (app w) /\ scrubCooldown (sponge w1) = true)
  /\ (scrubs (app w1) = S (scrubs (app w)) ->
      scrubCooldown (sponge w1) = true
      /\ releases w1 = [Timer d ReleaseCooldown]
      /\ (forall tr, stamps_before d tr ->
            scrubs (app (run tr w1)) = scrubs (app w1)
            /\ scrubCooldown (sponge (run tr w1)) = true)
      /\ (forall tr t', stamps_before d tr -> d <= t' ->
            scrubCooldown (sponge (advance t' (run tr w1))) = false))
  /\ (forall T tr,
        clock w < T + cooldown_ms ->
        Forall (fun te => T <= fst te < T + cooldown_ms) tr ->
        (scrubs (app (run tr w)) <= S (scrubs (app w)))%nat).
Proof.
  intros Hr w0 w1 d.
  pose proof (cool_inv_reachable w Hr) as Hi.
  assert (Hi0 : cool_inv w0) by apply cool_inv_advance, Hi.
  assert (Hs : scrubs (app w1)
               = if fires (Frame pos) w0 then S (scrubs (app w)) else scrubs (app w)).
  { unfold w1. rewrite step_scrubs. reflexivity. }
  split; [|split; [|split]].
  - rewrite Hs. simpl. unfold scrub_test. rewrite andb_assoc. reflexivity.
  - intros Hc.
    assert (Hf : fires (Frame pos) w0 = false).
    { simpl. rewrite (scrub_test_cooldown _ _ Hc). apply andb_false_r. }
    rewrite Hs, Hf. split; [reflexivity|].
    destruct (handle_quiet _ _ Hf) as (_ & _ & _ & _ & _ & _ & _ & H & _).
    unfold w1, step. cbn [fst snd]. fold w0. congruence.
  - intros Hfired.
    assert (Hf : fires (Frame pos) w0 = true).
    { destruct (fires (Frame pos) w0); [reflexivity|]. rewrite Hs in Hfired. lia. }
    assert (Hc : cooling d w1).
    { unfold d, w1, step. cbn [fst snd]. fold w0. rewrite handle_clock.
      apply fires_cooling; assumption. }
    destruct Hc as (Hc1 & Hc2 & Hc3).
    split; [exact Hc1|]. split; [exact Hc3|]. split.
    + intros tr Htr.
      destruct (cooling_run d tr w1 (conj Hc1 (conj Hc2 Hc3)) Htr)
        as ((H1 & _) & H2 & _). auto.
    + intros tr t' Htr Ht'.
      destruct (cooling_run d tr w1 (conj Hc1 (conj Hc2 Hc3)) Htr) as (H & _).
      apply (cooling_release d t' _ H Ht').
  - intros T tr Hk Htr. apply (window_at_most_one T); assumption.
Qed.

Lemma C1_cooldown_debounce_witness :
  reachable grabbed
  /\ scrubs (app (step (0, Frame crow_centre) grabbed)) = S (scrubs (app grabbed))
  /\ scrubs (app (run [(100, Frame crow_centre); (200, Frame crow_centre)]
                      (step (0, Frame crow_centre) grabbed)))
     = scrubs (app (step (0, Frame crow_centre) grabbed)).
Proof.
  destruct grabbed_state as (Hr & Hd & Hc & Hs & _ & Hk).
  destruct (C1_cooldown_debounce grabbed 0 crow_centre Hr) as (H1 & _ & H3 & _).
  destruct (advance_frame 0 grabbed) as (_ & _ & _ & _ & _ & Hd0 & _).
  rewrite Hd0, Hd, (advance_stays_free _ _ Hc) in H1.
  rewrite (proj2 (Rltb_true _ _) near_centre) in H1. simpl in H1.
  split; [exact Hr|]. split; [exact H1|].
  destruct (H3 H1) as (_ & _ & H & _). apply H.
  rewrite step_clock, Hk. cbn [fst]. rewrite Rmax_left by lra.
  unfold cooldown_ms.
  constructor; [simpl; lra|]. constructor; [simpl; lra|]. constructor.
Defined.

(** ** C2: the count and the glow *)

(** C2: through any events in the order of time, when the proximity
    events (frames of a drag within the radius) are each more than the
    cooldown after the one before, and the first comes after any cooldown
    still pending, the scrub counter grows by their number [N]; from the
    first render it is [N].  The glow flag is set exactly when the counter
    has reached 10, and once it is set no later event of any kind clears
    it. *)
Theorem C2_spaced_scrubs_counted (w : world) (tr : list (R * event)) (b : R) :
  reachable w ->
  stamped_from (clock w) tr ->
  cooled_by b w ->
  spaced_after b (proximity_events (dragging (sponge w)) tr) ->
  let w1 := run tr w in
  let n := (scrubs (app w)
            + List.length (proximity_events (dragging (sponge w)) tr))%nat in
  scrubs (app w1) = n
  /\ isGlowing (app w1) = (threshold <=? n)%nat
  /\ ((threshold <= n)%nat ->
      forall tr', isGlowing (app (run tr' w1)) = true).
Proof.
  intros Hr Hst Hcb Hsp w1 n.
  pose proof (proximity_count tr w b (cool_inv_reachable w Hr) Hst Hcb Hsp) as Hc.
  fold w1 n in Hc.
  assert (Hg : isGlowing (app w1) = (threshold <=? n)%nat).
  { rewrite <- Hc. apply glow_inv_reachable, reachable_run, Hr. }
  split; [exact Hc|]. split; [exact Hg|].
  intros Hn tr'. apply glow_run_mono. rewrite Hg. apply Nat.leb_le. exact Hn.
Qed.

Lemma C2_spaced_scrubs_counted_witness :
  reachable (init 0)
  /\ stamped_from (clock (init 0)) ((0, PointerDown) :: rub_trace 1 10)
  /\ cooled_by 0 (init 0)
  /\ scrubs (app (run ((0, PointerDown) :: rub_trace 1 10) (init 0))) = 10%nat
  /\ isGlowing (app (run ((0, PointerDown) :: rub_trace 1 10) (init 0))) = true
  /\ isGlowing (app (run [(5000, PointerUp); (6000, Click no)]
                         (run ((0, PointerDown) :: rub_trace 1 10) (init 0))))
     = true.
Proof.
  assert (Hr : reachable (init 0)) by constructor.
  destruct (rub_trace_events 10 1) as (E1 & E2 & E3).
  assert (Hst : stamped_from (clock (init 0)) ((0, PointerDown) :: rub_trace 1 10)).
  { split; [simpl; lra|]. destruct E1 as [_ E1]. split; [lra|exact E1]. }
  assert (Hcb : cooled_by 0 (init 0)) by constructor.
  pose proof (proximity_events_press (dragging (sponge (init 0))) 0
                (rub_trace 1 10)) as Hev.
  assert (Hsp : spaced_after 0 (proximity_events (dragging (sponge (init 0)))
                                  ((0, PointerDown) :: rub_trace 1 10))).
  { rewrite Hev. apply E3. lra. }
  destruct (C2_spaced_scrubs_counted (init 0) ((0, PointerDown) :: rub_trace 1 10)
              0 Hr Hst Hcb Hsp) as (H1 & H2 & H3).
  rewrite Hev, E2 in H1, H2, H3.
  split; [exact Hr|]. split; [exact Hst|]. split; [exact Hcb|].
  split; [exact H1|]. split; [exact H2|].
  apply H3. apply Nat.leb_le. reflexivity.
Defined.

(** ** C3: the answer *)

(** C3: in a state where the modal is shown, a click on "yes" and a click
    on "no" lead to the same state, and so do any events after them.  The
    click hides the modal; the dead flag stays clear until 800 ms after
    the click and is set in every state from that time on. *)
Theorem C3_answer_irrelevant (w : world) (t : R) (ans : answer) :
  reachable w ->
  showIntro (app w) = true ->
  let w1 := step (t, Click ans) w in
  let d := clock w1 + dead_delay_ms in
  step (t, Click yes) w = step (t, Click no) w
  /\ (forall tr, run ((t, Click yes) :: tr) w = run ((t, Click no) :: tr) w)
  /\ showIntro (app w1) = false
  /\ dead (app w) = false
  /\ (forall tr, stamps_before d tr -> dead (app (run tr w1)) = false)
  /\ (forall tr te tr', d <= fst te ->
        dead (app (run (tr ++ te :: tr') w1)) = true).
Proof.
  intros Hr Hs w1 d.
  pose proof (intro_inv_reachable w Hr) as Hi.
  pose proof (click_dying ans t w Hi Hs) as Hd. fold w1 in Hd.
  assert (Hk : clock w1 = Rmax (clock w) t) by apply step_clock.
  rewrite <- Hk in Hd. fold d in Hd.
  split; [reflexivity|]. split; [reflexivity|].
  split; [apply Hd|]. split; [apply Hi, Hs|]. split.
  - intros tr Htr. apply (dying_run d tr w1 Hd Htr).
  - intros tr te tr' Hte. rewrite run_app, run_cons.
    assert (H : dead (app (step te (run tr w1))) = true).
    { unfold step. rewrite handle_dead.
      apply (doomed_dead d); [|exact Hte].
      apply doomed_run, dying_doomed, Hd. }
    clear -H. revert H. generalize (step te (run tr w1)).
    induction tr' as [|te' tr' IH]; intros w' H; [exact H|].
    rewrite run_cons. apply IH, dead_step_mono, H.
Qed.

Lemma C3_answer_irrelevant_witness :
  reachable (init 0)
  /\ showIntro (app (init 0)) = true
  /\ step (1000, Click yes) (init 0) = step (1000, Click no) (init 0)
  /\ dead (app (run [(1500, Frame crow_centre)] (step (1000, Click yes) (init 0))))
     = false
  /\ dead (app (run [(1500, Frame crow_centre); (1800, PointerDown)]
                    (step (1000, Click no) (init 0))))
     = true.
Proof.
  assert (Hr : reachable (init 0)) by constructor.
  assert (Hs : showIntro (app (init 0)) = true) by reflexivity.
  assert (Hk : forall a, clock (step (1000, Click a) (init 0)) = 1000).
  { intros a. rewrite step_clock. cbn [fst]. apply Rmax_right. simpl. lra. }
  split; [exact Hr|]. split; [exact Hs|].
  destruct (C3_answer_irrelevant (init 0) 1000 yes Hr Hs) as (H1 & _ & _ & _ & H5 & _).
  destruct (C3_answer_irrelevant (init 0) 1000 no Hr Hs) as (_ & _ & _ & _ & _ & H6).
  split; [exact H1|]. split.
  - apply H5. rewrite Hk. unfold dead_delay_ms.
    constructor; [simpl; lra|constructor].
  - apply (H6 [(1500, Frame crow_centre)] (1800, PointerDown) []).
    rewrite Hk. unfold dead_delay_ms. simpl. lra.
Defined.

(** ** C5: the asset fallback *)

Lemma ModelOrFallback_returns {Object3D : Type}
    (useGLTF : string -> render Object3D)
    (path : string) (fallback : element Object3D) (position : vec3) :
  ModelOrFallback useGLTF path fallback position
  = match useGLTF path with
    | inl _ => inr (Rendered fallback [])
    | inr scene => inr (Rendered (primitive scene position None) [])
    end.
Proof.
  unfold ModelOrFallback. destruct (useGLTF path); reflexivity.
Qed.

Lemma CrowModel_returns {Object3D : Type}
    (useGLTF : string -> render Object3D) (clone : Object3D -> render Object3D)
    (position : vec3) (isGlowing : bool) :
  CrowModel useGLTF clone position isGlowing
  = match useGLTF "/models/crow.glb"%string with
    | inl _ => inr (Rendered (crow_placeholder position isGlowing) [])
    | inr gltf_scene =>
        match clone gltf_scene with
        | inl _ => inr (Rendered (crow_placeholder position isGlowing) [])
        | inr scene =>
            inr (Rendered (primitive scene position (Some 0.9))
                          [TraverseEmissive scene isGlowing])
        end
    end.
Proof.
  unfold CrowModel. destruct (useGLTF "/models/crow.glb"%string) as [e|g]; [reflexivity|].
  simpl. destruct (clone g); reflexivity.
Qed.

(** C5: whatever [useGLTF] throws for a path, the promise of a pending
    load or an error, [ModelOrFallback] returns its fallback and
    [CrowModel] returns the crow built from simple geometry, not the
    asset: a group at the given position with the body sphere, the beak
    cone, the two eye spheres and, when glowing, the eyelash plane; in the
    scene the fallback of the bathtub is the group with the cylinder.
    Both placeholders are made of geometry alone.  Neither component ever
    throws, whatever the loader and the scene do, so nothing reaches the
    enclosing view. *)
Theorem C5_asset_fallback {Object3D : Type}
    (useGLTF : string -> render Object3D) (clone : Object3D -> render Object3D)
    (position : vec3) (isGlowing : bool) :
  (forall path fallback e,
     useGLTF path = inl e ->
     ModelOrFallback useGLTF path fallback position = inr (Rendered fallback []))
  /\ (forall e,
        useGLTF "/models/crow.glb"%string = inl e ->
        CrowModel useGLTF clone position isGlowing
        = inr (Rendered
                 (group position
                    ([ mesh (Vec3 0 0 0) (Vec3 0 0 0) true false
                         (sphereGeometry 0.6 32 32)
                         (Material (if isGlowing then "#1e90ff" else "#222")
                                   (Some 0.2) (Some 0.6));
                       mesh (Vec3 0.6 (-0.05) 0.1) (Vec3 0 0 (-0.4)) false false
                         (coneGeometry 0.18 0.5 16)
                         (Material "#ffb84d" None None);
                       mesh (Vec3 0.25 0.15 0.45) (Vec3 0 0 0) false false
                         (sphereGeometry 0.08 12 12)
                         (Material "white" None None);
                       mesh (Vec3 0.32 0.15 0.48) (Vec3 0 0 0) false false
                         (sphereGeometry 0.04 12 12)
                         (Material "black" None None) ]
                     ++ (if isGlowing
                         then [ group (Vec3 0.25 0.24 0.45)
                                  [ mesh (Vec3 0 0 0) (Vec3 0 0 (-0.5)) false false
                                      (planeGeometry 0.18 0.05)
                                      (Material "#000" None None) ] ]
                         else [])))
                 []))
  /\ (forall path fallback,
        exists r, ModelOrFallback useGLTF path fallback position = inr r)
  /\ (exists r, CrowModel useGLTF clone position isGlowing = inr r)
  /\ (exists l, Scene_assets useGLTF clone isGlowing = inr l)
  /\ (forall e1 e2,
        useGLTF "/models/bathtub.glb"%string = inl e1 ->
        useGLTF "/models/crow.glb"%string = inl e2 ->
        Scene_assets useGLTF clone isGlowing
        = inr [Rendered
                 (group (Vec3 0 (-1.1) 0)
                    [ mesh (Vec3 0 0 0) (Vec3 0 0 0) false true
                        (cylinderGeometry 2.2 2.2 0.6 32)
                        (Material "#6d87b0ff" (Some 0.1) (Some 0.5)) ])
                 [];
               Rendered (crow_placeholder (Vec3 0 (-0.6) 0) isGlowing) []])
  /\ (forall r,
        (exists e, useGLTF "/models/crow.glb"%string = inl e) ->
        CrowModel useGLTF clone position isGlowing = inr r ->
        procedural (output Object3D r) = true
        /\ List.length (match output Object3D r with
                        | group _ children => children
                        | _ => []
                        end)
           = if isGlowing then 5%nat else 4%nat)
  /\ procedural (@BathtubPlaceholder Object3D) = true.
Proof.
  assert (HM : forall path fallback pos,
             exists r, ModelOrFallback useGLTF path fallback pos = inr r).
  { intros path fallback pos. rewrite ModelOrFallback_returns.
    destruct (useGLTF path); eexists; reflexivity. }
  assert (HC : forall pos, exists r, CrowModel useGLTF clone pos isGlowing = inr r).
  { intros pos. rewrite CrowModel_returns.
    destruct (useGLTF "/models/crow.glb"%string) as [e|g]; [eexists; reflexivity|].
    destruct (clone g); eexists; reflexivity. }
  split; [|split; [|split; [|split; [|split; [|split; [|split]]]]]].
  - intros path fallback e H. rewrite ModelOrFallback_returns, H. reflexivity.
  - intros e H. rewrite CrowModel_returns, H. reflexivity.
  - intros path fallback. apply HM.
  - apply HC.
  - unfold Scene_assets.
    destruct (HM "/models/bathtub.glb"%string BathtubPlaceholder (Vec3 0 (-1.1) 0))
      as (r1 & ->).
    destruct (HC crow_default_position) as (r2 & ->).
    eexists. reflexivity.
  - intros e1 e2 H1 H2. unfold Scene_assets.
    rewrite ModelOrFallback_returns, H1, CrowModel_returns, H2. reflexivity.
  - intros r (e & He) Hr. rewrite CrowModel_returns, He in Hr.
    injection Hr as <-. destruct isGlowing; split; reflexivity.
  - reflexivity.
Qed.

Lemma C5_asset_fallback_witness :
  missing_asset "/models/bathtub.glb" = inl (ThrownError "404")
  /\ ModelOrFallback missing_asset "/models/bathtub.glb"
       (group (Vec3 0 (-1.1) 0)
          [ mesh (Vec3 0 0 0) (Vec3 0 0 0) false true
              (cylinderGeometry 2.2 2.2 0.6 32)
              (Material "#6d87b0ff" (Some 0.1) (Some 0.5)) ])
       (Vec3 0 (-1.1) 0)
     = inr (Rendered BathtubPlaceholder [])
  /\ CrowModel missing_asset (fun s => inr s) crow_default_position true
     = inr (Rendered (crow_placeholder crow_default_position true) []).
Proof.
  split; [reflexivity|].
  destruct (C5_asset_fallback missing_asset (fun s => inr s) (Vec3 0 (-1.1) 0) true)
    as (H1 & _).
  destruct (C5_asset_fallback missing_asset (fun s => inr s) crow_default_position true)
    as (_ & H2 & _).
  split.
  - apply (H1 _ _ (ThrownError "404"%string)). reflexivity.
  - apply (H2 (ThrownError "404"%string)). reflexivity.
Defined.

Lemma rub_trace_dragging (n : nat) (t : R) (w : world) :
  dragging (sponge (run (rub_trace t n) w)) = dragging (sponge w).
Proof.
  revert t w. induction n as [|n IH]; intros t w; [reflexivity|].
  cbn [rub_trace]. rewrite !run_cons, IH, !step_frame_dragging. reflexivity.
Qed.

Lemma scrubbed_state (n : nat) :
  reachable (scrubbed n)
  /\ dragging (sponge (scrubbed n)) = true
  /\ scrubs (app (scrubbed n)) = n.
Proof.
  destruct grabbed_state as (Hr & Hd & Hc & Hs & _ & Hk).
  destruct (rub_trace_events n 0) as (E1 & E2 & E3).
  split; [apply reachable_run, Hr|].
  split; [unfold scrubbed; rewrite rub_trace_dragging; exact Hd|].
  unfold scrubbed.
  rewrite (proximity_count (rub_trace 0 n) grabbed (-1)).
  - rewrite Hd, E2, Hs. reflexivity.
  - apply cool_inv_reachable, Hr.
  - rewrite Hk. exact E1.
  - unfold cooled_by.
    rewrite (cool_inv_free grabbed (cool_inv_reachable _ Hr) Hc). constructor.
  - rewrite Hd. apply E3. lra.
Qed.

(** ** C10: no upper bound *)








(** * Further properties of the code *)

(** ** X1: the pointer in normalised device coordinates *)

(** X1: for a pointer inside a window of positive size, [handlePointerMove]
    stores coordinates between -1 and 1, and the client coordinates can be
    read back from them: x grows to the right from -1 to 1, y grows upwards
    from -1 at the bottom edge to 1 at the top edge. *)
Theorem X1_pointer_normalised (clientX clientY innerWidth innerHeight : R) :
  0 < innerWidth ->
  0 < innerHeight ->
  0 <= clientX <= innerWidth ->
  0 <= clientY <= innerHeight ->
  let p := handlePointerMove clientX clientY innerWidth innerHeight in
  -1 <= pointer_x p <= 1
  /\ -1 <= pointer_y p <= 1
  /\ clientX = (pointer_x p + 1) / 2 * innerWidth
  /\ clientY = (1 - pointer_y p) / 2 * innerHeight.
Proof.
  intros HW HH HX HY p. unfold p, handlePointerMove. cbn [pointer_x pointer_y].
  assert (Hx : 0 <= clientX / innerWidth <= 1).
  { split.
    - apply Rmult_le_pos; [lra|]. left. apply Rinv_0_lt_compat. exact HW.
    - apply (Rmult_le_reg_r innerWidth); [exact HW|].
      unfold Rdiv. rewrite Rmult_assoc, Rinv_l by lra. lra. }
  assert (Hy : 0 <= clientY / innerHeight <= 1).
  { split.
    - apply Rmult_le_pos; [lra|]. left. apply Rinv_0_lt_compat. exact HH.
    - apply (Rmult_le_reg_r innerHeight); [exact HH|].
      unfold Rdiv. rewrite Rmult_assoc, Rinv_l by lra. lra. }
  split; [lra|]. split; [lra|]. split; field; lra.
Qed.

Lemma X1_pointer_normalised_witness :
  handlePointerMove 480 270 1920 1080 = Pointer (-0.5) 0.5.
Proof.
  assert (H : forall p q, pointer_x p = pointer_x q -> pointer_y p = pointer_y q ->
                     p = q).
  { intros [a b] [c d]. simpl. intros -> ->. reflexivity. }
  destruct (X1_pointer_normalised 480 270 1920 1080) as (_ & _ & H1 & H2);
    try lra.
  apply H; simpl in H1, H2 |- *; lra.
Defined.

(** ** X2: the point under the pointer *)

Lemma ray_length_pos (v : vec3) : vz v <> 0 -> 0 < Vector3.length v.
Proof.
  intros Hz. unfold Vector3.length, Math.sqrt. apply sqrt_lt_R0.
  pose proof (Rle_0_sqr (vx v)) as Hx. pose proof (Rle_0_sqr (vy v)) as Hy.
  assert (0 < vz v * vz v) by (apply Rsqr_pos_lt in Hz; exact Hz).
  unfold Rsqr in Hx, Hy. lra.
Qed.

(** X2: when the ray from the camera through the unprojected pointer is not
    parallel to the plane z = 0, lines 103-105 compute the point where it
    meets that plane: the point has z = 0 and lies on the line through the
    camera and the pointer, and the position stored for the sponge has
    z = 0 as well. *)
Theorem X2_plane_point_on_plane (camera_position vec : vec3) :
  vz vec <> vz camera_position ->
  let pos := plane_point camera_position vec in
  let k := - vz camera_position / (vz vec - vz camera_position) in
  vz pos = 0
  /\ vx pos = vx camera_position + k * (vx vec - vx camera_position)
  /\ vy pos = vy camera_position + k * (vy vec - vy camera_position)
  /\ vz (newPos_of pos) = 0.
Proof.
  intros Hz pos k.
  assert (Hd : vz (Vector3.sub vec camera_position) <> 0) by (simpl; lra).
  pose proof (ray_length_pos _ Hd) as Hl.
  assert (E : pos = Vec3 (vx camera_position + k * (vx vec - vx camera_position))
                         (vy camera_position + k * (vy vec - vy camera_position))
                         0).
  { unfold pos, plane_point, Vector3.normalize.
    destruct (Req_dec_T (Vector3.length (Vector3.sub vec camera_position)) 0)
      as [E0|_]; [lra|].
    set (l := Vector3.length (Vector3.sub vec camera_position)) in *.
    unfold Vector3.add, Vector3.multiplyScalar, Vector3.divideScalar,
      Vector3.multiplyScalar, Vector3.sub, k. cbn [vx vy vz].
    f_equal; field; lra. }
  rewrite E. cbn [vx vy vz newPos_of]. repeat split; reflexivity.
Qed.

Lemma X2_plane_point_on_plane_witness :
  plane_point (Vec3 0 1.6 4) (Vec3 0 1.2 3) = Vec3 0 0 0.
Proof.
  assert (H : vz (Vec3 0 1.2 3) <> vz (Vec3 0 1.6 4)) by (simpl; lra).
  destruct (X2_plane_point_on_plane (Vec3 0 1.6 4) (Vec3 0 1.2 3) H)
    as (H1 & H2 & H3 & _).
  destruct (plane_point (Vec3 0 1.6 4) (Vec3 0 1.2 3)) as [x y z].
  cbn [vx vy vz] in H1, H2, H3. f_equal; [rewrite H2|rewrite H3|exact H1]; lra.
Defined.

(** ** X3: where a scrub is possible *)

(** X3: a frame can only be within the radius when the pointer's height is
    below 0.3 and its horizontal distance from the crow's axis is below
    the square root of 0.72.  For heights at or below -0.3 that horizontal
    bound is also sufficient; at heights of 0.3 or more nothing is within
    the radius; and the sponge's starting position is not. *)
Theorem X3_scrub_zone (pos : vec3) :
  (near pos ->
   vy pos < 0.3 /\ vx pos * vx pos + vz pos * vz pos < 0.72)
  /\ (vy pos <= -0.3 ->
      (near pos <-> vx pos * vx pos + vz pos * vz pos < 0.72))
  /\ (0.3 <= vy pos -> ~ near pos)
  /\ ~ near (Vec3 1.2 0.5 0.6).
Proof.
  assert (Hn : forall p, near p <-> dist2_of (newPos_of p) < 0.81).
  { intros p. unfold near, radius.
    rewrite (dist_lt_iff _ 0.9) by lra.
    replace (0.9 * 0.9) with 0.81 by lra. tauto. }
  assert (Hhigh : forall p, 0.3 <= vy p -> ~ near p).
  { intros p Hy H. apply Hn in H. unfold dist2_of, newPos_of in H.
    cbn [vx vy vz] in H.
    assert (Hc : 0.3 <= Math.max (-0.3) (Math.min 1.2 (vy p))).
    { unfold Math.max, Math.min, Rmax, Rmin. rdec; lra. }
    pose proof (Rle_0_sqr (vx p - 0)) as Hx.
    pose proof (Rle_0_sqr (vz p - 0)) as Hz. unfold Rsqr in Hx, Hz. nra. }
  split; [|split; [|split]].
  - intros H. split.
    + destruct (Rlt_dec (vy pos) 0.3) as [|Hge]; [assumption|].
      exfalso. apply (Hhigh pos); [lra|exact H].
    + apply Hn in H. unfold dist2_of, newPos_of in H. cbn [vx vy vz] in H.
      pose proof (clamp_range (vy pos)) as Hc. nra.
  - intros Hy. rewrite Hn. unfold dist2_of, newPos_of. cbn [vx vy vz].
    rewrite clamp_below by exact Hy. split; intros H; lra.
  - apply Hhigh.
  - apply Hhigh. simpl. lra.
Qed.

Lemma X3_scrub_zone_witness :
  near (Vec3 0.5 (-1) 0.5) /\ ~ near (Vec3 0 0.3 0).
Proof.
  split.
  - destruct (X3_scrub_zone (Vec3 0.5 (-1) 0.5)) as (_ & H & _).
    apply H; simpl; lra.
  - destruct (X3_scrub_zone (Vec3 0 0.3 0)) as (_ & _ & H & _).
    apply H. simpl. lra.
Defined.

(** ** X4: the cursor *)

Lemma handle_cursor (e : event) (w : world) :
  cursor (sponge (handle e w))
  = match e with
    | PointerDown => cursor_grabbing
    | PointerUp | PointerLeave => cursor_auto
    | Frame _ | Click _ => cursor (sponge w)
    end.
Proof.
  unfold handle.
  destruct (render_commit_frame (scrubs (app w)) (dispatch e w)) as (_ & -> & _).
  destruct e as [pos| | | |ans]; simpl; try reflexivity.
  - destruct (dragging (sponge w)) eqn:Hd.
    + rewrite (useFrame_drag _ _ Hd). unfold drag_step.
      destruct (scrub_test _ _); reflexivity.
    + rewrite (useFrame_idle _ _ Hd). apply idle_step_frame.
  - destruct (showIntro (app w)); reflexivity.
Qed.

Lemma advance_cursor (t : R) (w : world) :
  cursor (sponge (advance t w)) = cursor (sponge w).
Proof. rewrite advance_eq. reflexivity. Qed.

(** X4: in every state the page can reach, the cursor over the canvas is
    the grabbing hand exactly while a drag is active. *)
Theorem X4_cursor_follows_drag (w : world) :
  reachable w ->
  (dragging (sponge w) = true <-> cursor (sponge w) = cursor_grabbing).
Proof.
  induction 1 as [t0|w te _ IH].
  - simpl. split; discriminate.
  - rewrite step_dragging. unfold step. rewrite handle_cursor, advance_cursor.
    destruct (snd te); try exact IH; split; intros; congruence.
Qed.

Lemma X4_cursor_follows_drag_witness :
  reachable grabbed /\ cursor (sponge grabbed) = cursor_grabbing.
Proof.
  destruct grabbed_state as (Hr & Hd & _).
  split; [exact Hr|]. apply (X4_cursor_follows_drag grabbed Hr). exact Hd.
Defined.

(** ** X5: the sounds *)

Lemma concat_repeat_snoc {A : Type} (l : list A) (n : nat) :
  List.concat (repeat l (S n)) = List.concat (repeat l n) ++ l.
Proof.
  change (repeat l (S n)) with (l :: repeat l n).
  rewrite repeat_cons, concat_app. simpl. rewrite app_nil_r. reflexivity.
Qed.

(** X5: in every state the page can reach, the sounds played so far are
    one splash followed by one caw for each scrub counted, in that order,
    and nothing else. *)
Theorem X5_two_sounds_per_scrub (w : world) :
  reachable w ->
  played w = List.concat (repeat [splashSound; cawSound] (scrubs (app w))).
Proof.
  induction 1 as [t0|w te _ IH]; [reflexivity|].
  unfold step.
  destruct (advance_frame (fst te) w) as (_ & Hs & _ & _ & _ & _ & _ & Hp & _).
  destruct (fires (snd te) (advance (fst te) w)) eqn:Hf.
  - destruct (handle_fires _ _ Hf) as (_ & -> & _ & _ & -> & _).
    rewrite Hs, Hp, IH, concat_repeat_snoc. reflexivity.
  - destruct (handle_quiet _ _ Hf) as (_ & _ & -> & _ & _ & -> & _).
    rewrite Hs, Hp. exact IH.
Qed.

Lemma X5_two_sounds_per_scrub_witness :
  reachable (scrubbed 2)
  /\ played (scrubbed 2) = [splashSound; cawSound; splashSound; cawSound].
Proof.
  destruct (scrubbed_state 2) as (Hr & _ & Hs).
  split; [exact Hr|].
  rewrite (X5_two_sounds_per_scrub _ Hr), Hs. reflexivity.
Defined.

(** ** X6: the banner's tween *)

Lemma handle_fires_tweens (e : event) (w : world) :
  fires e w = true ->
  tweens (handle e w)
  = if (threshold <=? S (scrubs (app w)))%nat then S (tweens w) else tweens w.
Proof.
  intros Hf. destruct (dispatch_fires _ _ Hf) as (pos & _ & Hd).
  unfold handle, render_commit, glow_effect. rewrite Hd.
  change (scrubs (app (trigger (with_sponge (setPosition (newPos_of pos)) w))))
    with (scrubs (app w) + 1)%nat.
  rewrite Nat.add_1_r.
  rewrite (proj2 (Nat.eqb_neq _ _)) by lia.
  destruct (threshold <=? S (scrubs (app w)))%nat; reflexivity.
Qed.

(** X6: the effect starts the banner's tween once for every scrub from the
    tenth on: in every state the page can reach, the number of
    [gsap.fromTo] calls is the count minus nine, and zero below ten. *)
Theorem X6_tween_per_scrub_from_tenth (w : world) :
  reachable w ->
  tweens w = (scrubs (app w) - 9)%nat.
Proof.
  induction 1 as [t0|w te _ IH]; [reflexivity|].
  unfold step.
  destruct (advance_frame (fst te) w)
    as (_ & Hs & _ & _ & _ & _ & _ & _ & Ht).
  destruct (fires (snd te) (advance (fst te) w)) eqn:Hf.
  - rewrite (handle_fires_tweens _ _ Hf).
    destruct (handle_fires _ _ Hf) as (_ & -> & _).
    rewrite Hs, Ht, IH. unfold threshold.
    destruct (Nat.leb_spec 10 (S (scrubs (app w)))); lia.
  - destruct (handle_quiet _ _ Hf) as (_ & _ & -> & _ & _ & _ & -> & _).
    rewrite Hs, Ht. exact IH.
Qed.

Lemma X6_tween_per_scrub_from_tenth_witness :
  reachable (scrubbed 12) /\ tweens (scrubbed 12) = 3%nat.
Proof.
  destruct (scrubbed_state 12) as (Hr & _ & Hs).
  split; [exact Hr|].
  rewrite (X6_tween_per_scrub_from_tenth _ Hr), Hs. reflexivity.
Defined.

(** ** X7: the pending timers *)

Lemma insert_timer_Forall (P : timer -> Prop) (tm : timer) (q : list timer) :
  P tm -> Forall P q -> Forall P (insert_timer tm q).
Proof.
  intros Ht. induction q as [|x q IH]; intros Hq; simpl.
  - constructor; [exact Ht|constructor].
  - inversion Hq as [|? ? Hx Hq']; subst.
    destruct (Rle_dec (due x) (due tm)).
    + constructor; [exact Hx|apply IH, Hq'].
    + constructor; [exact Ht|exact Hq].
Qed.

Lemma insert_timer_by_due (tm : timer) (q : list timer) :
  by_due q -> by_due (insert_timer tm q).
Proof.
  unfold by_due. induction q as [|x q IH]; intros Hq; simpl.
  - constructor; constructor.
  - inversion Hq as [|? ? Hq' Hx]; subst.
    destruct (Rle_dec (due x) (due tm)) as [Hle|Hgt].
    + constructor; [apply IH, Hq'|].
      apply insert_timer_Forall; assumption.
    + constructor; [exact Hq|].
      constructor; [lra|].
      eapply Forall_impl; [|exact Hx]. simpl. intros y Hy. lra.
Qed.

Lemma filter_by_due (f : timer -> bool) (q : list timer) :
  by_due q -> by_due (filter f q).
Proof.
  unfold by_due. induction q as [|x q IH]; intros Hq; simpl; [constructor|].
  inversion Hq as [|? ? Hq' Hx]; subst.
  destruct (f x); [|apply IH, Hq'].
  constructor; [apply IH, Hq'|].
  apply Forall_forall. intros y Hy. apply filter_In in Hy.
  apply (proj1 (Forall_forall _ _) Hx). apply Hy.
Qed.

Lemma advance_timers (t : R) (w : world) :
  timers (advance t w)
  = filter (fun tm => negb (is_due (Rmax (clock w) t) tm)) (timers w).
Proof. rewrite advance_eq. reflexivity. Qed.

Lemma handle_timers_cases (e : event) (w : world) :
  timers (handle e w) = timers w
  \/ exists tm, timers (handle e w) = insert_timer tm (timers w)
                /\ clock w < due tm <= clock w + dead_delay_ms.
Proof.
  destruct (fires e w) eqn:Hf.
  - right. destruct (handle_fires e w Hf) as (_ & _ & _ & _ & _ & _ & _ & Ht).
    eexists. split; [exact Ht|]. unfold cooldown_ms, dead_delay_ms. simpl. lra.
  - destruct (handle_quiet e w Hf) as (-> & _).
    destruct e as [pos| | | |ans]; simpl in *; auto.
    + left. destruct (dragging (sponge w)) eqn:Hd; simpl in Hf.
      * rewrite (useFrame_drag _ _ Hd), (drag_step_quiet _ _ Hf). reflexivity.
      * rewrite (useFrame_idle _ _ Hd). apply idle_step_frame.
    + destruct (showIntro (app w)); [right|left; reflexivity].
      eexists. split; [reflexivity|]. unfold dead_delay_ms. simpl. lra.
Qed.

Lemma timers_inv_step (te : R * event) (w : world) :
  timers_inv w -> timers_inv (step te w).
Proof.
  intros [Hs Hb].
  assert (Ha : timers_inv (advance (fst te) w)).
  { unfold timers_inv. rewrite advance_timers.
    destruct (advance_frame (fst te) w) as (-> & _).
    split; [apply filter_by_due, Hs|].
    apply Forall_forall. intros tm Hin. apply filter_In in Hin.
    destruct Hin as [Hin Hnd]. apply negb_true_iff in Hnd.
    unfold is_due in Hnd. apply Rleb_false in Hnd.
    pose proof (proj1 (Forall_forall _ _) Hb tm Hin) as H. cbv beta in H.
    pose proof (Rmax_l (clock w) (fst te)). lra. }
  destruct Ha as [Hs0 Hb0]. unfold timers_inv, step. rewrite handle_clock.
  destruct (handle_timers_cases (snd te) (advance (fst te) w))
    as [->|(tm & -> & Htm)]; [auto|].
  split; [apply insert_timer_by_due, Hs0|].
  apply insert_timer_Forall; assumption.
Qed.

Lemma dead_once_step (te : R * event) (w : world) :
  intro_inv w -> dead_once w -> dead_once (step te w).
Proof.
  intros Hi Hd. destruct te as [t e].
  destruct (advance_frame t w) as (_ & _ & _ & Hs & _).
  assert (Ha : dead_once (advance t w)).
  { unfold dead_once in *. rewrite advance_set_deads, Hs.
    destruct (set_deads w) as [|x [|y l]]; simpl; [exact I| |contradiction].
    destruct (negb (is_due (Rmax (clock w) t) x)); [exact Hd|exact I]. }
  unfold step. cbn [fst snd].
  destruct (handle_modal e (advance t w)) as [[H1 H2]|(ans & -> & H)].
  - unfold dead_once in *. rewrite H1, H2. exact Ha.
  - rewrite Hs in H.
    destruct (click_dying ans t w Hi H) as (Hshow & _ & _ & Hq).
    unfold step in Hshow, Hq. cbn [fst snd] in Hshow, Hq.
    unfold dead_once. rewrite Hq. exact Hshow.
Qed.

Lemma dead_once_reachable (w : world) : reachable w -> dead_once w.
Proof.
  induction 1 as [t0|w te Hr IH]; [exact I|].
  apply dead_once_step; [apply intro_inv_reachable, Hr|exact IH].
Qed.

Lemma timers_by_kind (q : list timer) :
  List.length q
  = (List.length (filter is_release q) + List.length (filter is_set_dead q))%nat.
Proof.
  induction q as [|[d [|]] q IH]; simpl; [reflexivity| |]; rewrite IH; lia.
Qed.

(** X7: in every state the page can reach, at most two timers are pending,
    at most one that ends the cooldown and at most one that sets the dead
    flag; the queue is in the order of due times, and every pending timer
    is due later than now and at most 800 ms from now. *)
Theorem X7_pending_timers (w : world) :
  reachable w ->
  (List.length (releases w) <= 1)%nat
  /\ (List.length (set_deads w) <= 1)%nat
  /\ (List.length (timers w) <= 2)%nat
  /\ by_due (timers w)
  /\ Forall (fun tm => clock w < due tm <= clock w + dead_delay_ms) (timers w).
Proof.
  intros Hr.
  assert (H1 : (List.length (releases w) <= 1)%nat).
  { pose proof (cool_inv_reachable w Hr) as Hc. unfold cool_inv in Hc.
    destruct (releases w) as [|x [|y l]]; simpl; [lia|lia|contradiction]. }
  assert (H2 : (List.length (set_deads w) <= 1)%nat).
  { pose proof (dead_once_reachable w Hr) as Hd. unfold dead_once in Hd.
    destruct (set_deads w) as [|x [|y l]]; simpl; [lia|lia|contradiction]. }
  assert (H3 : timers_inv w).
  { clear H1 H2. induction Hr as [t0|w te _ IH]; [|apply timers_inv_step, IH].
    split; constructor. }
  split; [exact H1|]. split; [exact H2|]. split; [|exact H3].
  rewrite timers_by_kind. unfold releases, set_deads in H1, H2. lia.
Qed.

Lemma X7_pending_timers_witness :
  reachable held_0 /\ (List.length (timers held_0) <= 2)%nat.
Proof.
  destruct first_scrub_state as (Hr & _).
  split; [exact Hr|]. apply (X7_pending_timers held_0 Hr).
Defined.

(** ** X8, X9: the modal and the dead flag *)

Lemma step_no_click (te : R * event) (w : world) :
  is_click (snd te) = false ->
  showIntro (app (step te w)) = showIntro (app w)
  /\ set_deads (step te w)
     = filter (fun tm => negb (is_due (Rmax (clock w) (fst te)) tm)) (set_deads w).
Proof.
  intros Hc. unfold step.
  destruct (advance_frame (fst te) w) as (_ & _ & _ & Hs & _).
  destruct (handle_modal (snd te) (advance (fst te) w)) as [[H1 H2]|(ans & He & _)].
  - rewrite H1, H2, Hs, advance_set_deads. auto.
  - rewrite He in Hc. discriminate.
Qed.

(** X8: the dead flag needs a click.  From a state in which the modal is
    shown, through any events other than a click on one of its buttons and
    however much time passes, the modal stays and the dead flag stays
    clear. *)
Theorem X8_no_click_no_death (w : world) (tr : list (R * event)) :
  reachable w ->
  showIntro (app w) = true ->
  Forall (fun te => is_click (snd te) = false) tr ->
  showIntro (app (run tr w)) = true /\ dead (app (run tr w)) = false.
Proof.
  intros Hr Hs Htr.
  assert (H : showIntro (app (run tr w)) = true).
  { clear Hr. revert w Hs. induction Htr as [|te tr Hc _ IH]; intros w Hs;
      [exact Hs|].
    rewrite run_cons. apply IH.
    destruct (step_no_click te w Hc) as (-> & _). exact Hs. }
  split; [exact H|].
  apply (intro_inv_reachable _ (reachable_run tr w Hr)). exact H.
Qed.

Lemma X8_no_click_no_death_witness :
  reachable (init 0)
  /\ dead (app (run [(100, PointerDown); (5000, Frame crow_centre)] (init 0)))
     = false.
Proof.
  assert (Hr : reachable (init 0)) by constructor.
  split; [exact Hr|].
  apply (X8_no_click_no_death (init 0)
           [(100, PointerDown); (5000, Frame crow_centre)] Hr eq_refl).
  repeat constructor.
Defined.

Lemma showIntro_step_mono (te : R * event) (w : world) :
  showIntro (app w) = false -> showIntro (app (step te w)) = false.
Proof.
  intros H. unfold step.
  destruct (advance_frame (fst te) w) as (_ & _ & _ & Hs & _).
  destruct (handle_modal (snd te) (advance (fst te) w)) as [[H1 _]|(ans & _ & H')].
  - congruence.
  - congruence.
Qed.

(** X9: the dismissal is final.  Once the modal is hidden it stays hidden
    through any events, a click on a button of the hidden modal changes
    nothing at all, and once the dead flag is set it stays set; in every
    state the page can reach a set dead flag comes with a hidden modal. *)
Theorem X9_dismissal_final (w : world) (tr : list (R * event)) (ans : answer) :
  (showIntro (app w) = false ->
   showIntro (app (run tr w)) = false /\ handle (Click ans) w = w)
  /\ (dead (app w) = true -> dead (app (run tr w)) = true)
  /\ (reachable w -> dead (app w) = true -> showIntro (app w) = false).
Proof.
  split; [|split].
  - intros H. split.
    + revert w H. induction tr as [|te tr IH]; intros w H; [exact H|].
      rewrite run_cons. apply IH, showIntro_step_mono, H.
    + unfold handle, render_commit. simpl. rewrite H, Nat.eqb_refl. reflexivity.
  - revert w. induction tr as [|te tr IH]; intros w H; [exact H|].
    rewrite run_cons. apply IH, dead_step_mono, H.
  - intros Hr Hd. pose proof (intro_inv_reachable w Hr) as Hi.
    destruct (showIntro (app w)) eqn:E; [|reflexivity].
    destruct (Hi E) as [Hf _]. congruence.
Qed.

Lemma X9_dismissal_final_witness :
  showIntro (app (handle (Click yes) (init 0))) = false
  /\ handle (Click no) (handle (Click yes) (init 0)) = handle (Click yes) (init 0).
Proof.
  assert (H : showIntro (app (handle (Click yes) (init 0))) = false)
    by reflexivity.
  split; [exact H|].
  destruct (X9_dismissal_final (handle (Click yes) (init 0)) [] no) as (H1 & _).
  apply (H1 H).
Defined.

(** ** X10: the rate of scrubs *)

Lemma paced_advance (T : R) (n : nat) (t : R) (w : world) :
  paced T n w -> paced T n (advance t w).
Proof.
  intros (Hi & Hb & HT & Hn).
  pose proof (Rmax_l (clock w) t) as Hm.
  unfold paced. rewrite advance_cooldown, advance_releases.
  destruct (advance_frame t w) as (-> & _).
  split; [apply cool_inv_advance, Hi|].
  split.
  { apply Forall_forall. intros tm Hin. apply filter_In in Hin.
    pose proof (proj1 (Forall_forall _ _) Hb tm (proj1 Hin)) as H.
    cbv beta in H. lra. }
  split; [lra|].
  destruct Hn as [Hn|Hn]; [left; exact Hn|right].
  unfold cool_inv in Hi.
  destruct (releases w) as [|r [|r' l]]; [| |contradiction].
  - rewrite Hi in Hn |- *. simpl. lra.
  - rewrite Hi in Hn |- *. inversion Hn as [|? ? Hr _]; subst. simpl.
    destruct (is_due (Rmax (clock w) t) r) eqn:E; simpl.
    + unfold is_due in E. apply Rleb_true in E. lra.
    + constructor; [exact Hr|constructor].
Qed.

Lemma paced_step (T : R) (n k : nat) (te : R * event) (w : world) :
  paced T n w ->
  (n <= k)%nat ->
  clock w <= fst te ->
  fst te < T + INR k * cooldown_ms ->
  exists n',
    paced T n' (step te w)
    /\ (n' <= k)%nat
    /\ (scrubs (app (step te w)) + n = scrubs (app w) + n')%nat.
Proof.
  intros Hp Hnk Hle Hlt.
  pose proof (paced_advance T n (fst te) w Hp) as (Hi & Hb & HT & Hn).
  assert (Hk : clock (advance (fst te) w) = fst te).
  { destruct (advance_frame (fst te) w) as (-> & _). apply Rmax_right, Hle. }
  rewrite step_scrubs. unfold step.
  destruct (fires (snd te) (advance (fst te) w)) eqn:Hf.
  - exists (S n).
    pose proof (fires_free _ _ Hf) as Hc. rewrite Hc in Hn.
    assert (Hfire : T + INR n * cooldown_ms <= fst te).
    { destruct Hn as [->|Hn]; [simpl; lra|lra]. }
    assert (HSn : (S n <= k)%nat).
    { assert (H : INR n < INR k) by (unfold cooldown_ms in *; lra).
      apply INR_lt in H. lia. }
    split; [|split; [exact HSn|lia]].
    unfold paced. rewrite (handle_fires_releases _ _ Hi Hf), handle_clock.
    destruct (handle_fires _ _ Hf) as (_ & _ & _ & _ & _ & -> & _).
    split; [apply cool_inv_handle, Hi|].
    split; [constructor; [simpl; lra|constructor]|].
    split; [exact HT|]. right.
    constructor; [|constructor]. cbn [due]. rewrite S_INR, Hk.
    unfold cooldown_ms in *. lra.
  - exists n. split; [|split; [exact Hnk|lia]].
    destruct (handle_quiet _ _ Hf) as (_ & Hc & _ & _ & _ & _ & _ & Hcd & Hr).
    unfold paced. rewrite Hc, Hcd, Hr.
    split; [apply cool_inv_handle, Hi|]. auto.
Qed.

Lemma paced_run (T : R) (k : nat) (tr : list (R * event)) :
  forall (w : world) (n : nat),
    paced T n w ->
    (n <= k)%nat ->
    stamped_from (clock w) tr ->
    stamps_before (T + INR k * cooldown_ms) tr ->
    (scrubs (app (run tr w)) + n <= scrubs (app w) + k)%nat.
Proof.
  induction tr as [|[t e] tr IH]; intros w n Hp Hnk Hst Hsb; [simpl; lia|].
  destruct Hst as [Hle Hst]. inversion Hsb as [|? ? Ht Hsb']; subst.
  destruct (paced_step T n k (t, e) w Hp Hnk Hle Ht) as (n' & Hp' & Hn' & Hs).
  rewrite run_cons.
  assert (Hk : clock (step (t, e) w) = t).
  { rewrite step_clock. apply Rmax_right, Hle. }
  rewrite <- Hk in Hst.
  pose proof (IH _ n' Hp' Hn' Hst Hsb') as H. lia.
Qed.

(** X10: scrubs are rate-limited.  From any state the page can reach,
    events in the order of time that all fall within the next [k] cooldown
    lengths add at most [k] to the counter, whatever the pointer does. *)
Theorem X10_scrub_rate (w : world) (tr : list (R * event)) (k : nat) :
  reachable w ->
  stamped_from (clock w) tr ->
  stamps_before (clock w + INR k * cooldown_ms) tr ->
  (scrubs (app (run tr w)) <= scrubs (app w) + k)%nat.
Proof.
  intros Hr Hst Hsb.
  assert (Hp : paced (clock w) 0 w).
  { split; [apply cool_inv_reachable, Hr|].
    split; [apply release_bound, Hr|]. split; [lra|left; reflexivity]. }
  pose proof (paced_run (clock w) k tr w 0%nat Hp (Nat.le_0_l k) Hst Hsb). lia.
Qed.

Lemma X10_scrub_rate_witness :
  reachable grabbed
  /\ (scrubs (app (run [(0%R, Frame crow_centre); (16%R, Frame crow_centre);
                         (350%R, Frame crow_centre); (366%R, Frame crow_centre);
                         (699%R, Frame crow_centre)] grabbed))
      <= scrubs (app grabbed) + 2)%nat.
Proof.
  destruct grabbed_state as (Hr & _ & _ & _ & _ & Hk).
  split; [exact Hr|].
  apply (X10_scrub_rate grabbed _ 2 Hr).
  - rewrite Hk. simpl. repeat split; lra.
  - rewrite Hk. unfold cooldown_ms. simpl.
    repeat (constructor; [simpl; lra|]). constructor.
Defined.

(** ** X11: the mesh and the stored position *)

Lemma idle_offset_bound (now : R) : Rabs (idle_offset now) <= 0.02.
Proof.
  unfold idle_offset, Math.sin. pose proof (SIN_bound (now / 700)) as [H1 H2].
  apply Rabs_le. lra.
Qed.

Lemma is_equ_eq (a b : vec3) : is_equ a b = true -> a = b.
Proof.
  destruct a as [ax ay az], b as [bx b_y bz]. unfold is_equ. cbn [vx vy vz].
  destruct (Req_dec_T ax bx); [|discriminate].
  destruct (Req_dec_T ay b_y); [|discriminate].
  destruct (Req_dec_T az bz); [|discriminate].
  intros _. subst. reflexivity.
Qed.

Lemma mesh_near_setPosition (p : vec3) (w : world) :
  mesh_near w -> mesh_near (with_sponge (setPosition p) w).
Proof.
  unfold mesh_near. cbn [with_sponge sponge setPosition ref position].
  destruct (ref (sponge w)) as [m|]; [|contradiction].
  intros (Hx & Hz & Hy).
  destruct (is_equ p (position (sponge w))) eqn:E.
  - apply is_equ_eq in E. rewrite E. auto.
  - cbn [option_map mesh_position]. rewrite Rminus_diag, Rabs_R0.
    repeat split; lra.
Qed.

Lemma mesh_near_trigger (w : world) : mesh_near w -> mesh_near (trigger w).
Proof. intros H. exact H. Qed.

Lemma mesh_near_handle (e : event) (w : world) :
  mesh_near w -> mesh_near (handle e w).
Proof.
  intros H.
  assert (Hd : mesh_near (dispatch e w)).
  { destruct e as [pos| | | |ans]; simpl; try exact H.
    - destruct (dragging (sponge w)) eqn:Hd.
      + rewrite (useFrame_drag _ _ Hd). unfold drag_step.
        destruct (scrub_test _ _);
          [apply mesh_near_trigger|]; apply mesh_near_setPosition, H.
      + rewrite (useFrame_idle _ _ Hd). unfold mesh_near in *.
        destruct (ref (sponge w)) as [m|] eqn:Hm; [|contradiction].
        destruct H as (Hx & Hz & Hy). rewrite (idle_step_ref w m Hm).
        destruct (idle_step_frame w) as (_ & _ & _ & _ & _ & _ & -> & _).
        cbn [mesh_position vx vy vz]. split; [exact Hx|]. split; [exact Hz|].
        replace (vy (position (sponge w)) + idle_offset (clock w)
                 - vy (position (sponge w))) with (idle_offset (clock w)) by lra.
        apply idle_offset_bound.
    - destruct (showIntro (app w)); exact H. }
  unfold mesh_near, handle in *.
  destruct (render_commit_frame (scrubs (app w)) (dispatch e w)) as (_ & -> & _).
  exact Hd.
Qed.

Lemma mesh_near_reachable (w : world) : reachable w -> mesh_near w.
Proof.
  induction 1 as [t0|w te _ IH].
  - unfold mesh_near. simpl. rewrite Rminus_diag, Rabs_R0. repeat split; lra.
  - unfold step. apply mesh_near_handle. unfold mesh_near in *.
    destruct (advance_frame (fst te) w) as (_ & _ & _ & _ & -> & _ & -> & _).
    exact IH.
Qed.

Lemma is_equ_refl (a : vec3) : is_equ a a = true.
Proof.
  unfold is_equ.
  destruct (Req_dec_T (vx a) (vx a)); [|congruence].
  destruct (Req_dec_T (vy a) (vy a)); [|congruence].
  destruct (Req_dec_T (vz a) (vz a)); [|congruence]. reflexivity.
Qed.

Lemma drag_frame_ref (t : R) (pos : vec3) (w : world) :
  dragging (sponge w) = true ->
  ref (sponge (step (t, Frame pos) w))
  = if is_equ (newPos_of pos) (position (sponge w))
    then ref (sponge w)
    else option_map (fun m => mkMesh (newPos_of pos) (rotation_z m))
                    (ref (sponge w)).
Proof.
  intros Hd. unfold step, handle. cbn [fst snd].
  destruct (render_commit_frame (scrubs (app (advance t w)))
              (dispatch (Frame pos) (advance t w))) as (_ & -> & _).
  destruct (advance_frame t w) as (_ & _ & _ & _ & Hr & Hd0 & Hp & _).
  rewrite <- Hr, <- Hp. rewrite <- Hd0 in Hd. cbn [dispatch].
  rewrite (useFrame_drag _ _ Hd). unfold drag_step.
  destruct (scrub_test _ _); reflexivity.
Qed.

(** X11: in every state the page can reach the sponge's mesh is mounted; it
    has the x and z of the stored position and its height differs from the
    stored height by at most 0.02, the amplitude of the idle bob, so the
    height of the mesh stays between -0.32 and 1.22.  A frame of a drag
    moves the mesh to the new stored position when that differs from the
    old one, and leaves the mesh where the idle bob put it when the stored
    position does not change. *)
Theorem X11_mesh_stays_with_position (w : world) (t : R) (pos : vec3) :
  reachable w ->
  (exists m,
     ref (sponge w) = Some m
     /\ vx (mesh_position m) = vx (position (sponge w))
     /\ vz (mesh_position m) = vz (position (sponge w))
     /\ Rabs (vy (mesh_position m) - vy (position (sponge w))) <= 0.02
     /\ -0.32 <= vy (mesh_position m) <= 1.22)
  /\ (dragging (sponge w) = true ->
      (newPos_of pos = position (sponge w) ->
       ref (sponge (step (t, Frame pos) w)) = ref (sponge w))
      /\ (newPos_of pos <> position (sponge w) ->
          ref (sponge (step (t, Frame pos) w))
          = option_map (fun m => mkMesh (newPos_of pos) (rotation_z m))
                       (ref (sponge w)))).
Proof.
  intros Hr. split.
  - pose proof (mesh_near_reachable w Hr) as H.
    pose proof (y_inv_reachable w Hr) as Hy. unfold mesh_near, y_inv in *.
    destruct (ref (sponge w)) as [m|]; [|contradiction].
    destruct H as (Hx & Hz & Hb). exists m.
    repeat (split; [assumption || reflexivity|]).
    unfold Rabs in Hb. destruct (Rcase_abs _) in Hb; lra.
  - intros Hd. rewrite (drag_frame_ref t pos w Hd). split.
    + intros ->. rewrite is_equ_refl. reflexivity.
    + intros Hne. destruct (is_equ _ _) eqn:E; [|reflexivity].
      apply is_equ_eq in E. contradiction.
Qed.

Lemma X11_mesh_stays_with_position_witness :
  reachable (step (1000, Frame crow_centre) (init 0))
  /\ exists m, ref (sponge (step (1000, Frame crow_centre) (init 0))) = Some m
               /\ -0.32 <= vy (mesh_position m) <= 1.22.
Proof.
  assert (Hr : reachable (step (1000, Frame crow_centre) (init 0)))
    by (apply reach_step, reach_init).
  split; [exact Hr|].
  destruct (X11_mesh_stays_with_position _ 0 crow_centre Hr)
    as ((m & Hm & _ & _ & _ & Hb) & _).
  exists m. split; [exact Hm|exact Hb].
Defined.

(** ** X12: the spin *)

Lemma step_rotation (te : R * event) (w : world) :
  mesh_rotation (step te w)
  = match snd te with
    | Frame _ =>
        if dragging (sponge w) then mesh_rotation w
        else option_map (fun r => r + 0.01) (mesh_rotation w)
    | _ => mesh_rotation w
    end.
Proof.
  unfold mesh_rotation, step, handle.
  destruct (render_commit_frame (scrubs (app (advance (fst te) w)))
              (dispatch (snd te) (advance (fst te) w))) as (_ & -> & _).
  destruct (advance_frame (fst te) w) as (_ & _ & _ & _ & Hr & Hd & _).
  rewrite <- Hr, <- Hd. generalize (advance (fst te) w). intros w0.
  destruct (snd te) as [pos| | | |ans]; simpl; try reflexivity.
  - destruct (dragging (sponge w0)) eqn:E.
    + rewrite (useFrame_drag _ _ E). unfold drag_step.
      destruct (scrub_test _ _); simpl; destruct (ref (sponge w0));
        destruct (is_equ _ _); reflexivity.
    + rewrite (useFrame_idle _ _ E). unfold idle_step.
      destruct (ref (sponge w0)) eqn:Hm; simpl; rewrite ?Hm; reflexivity.
  - destruct (showIntro (app w0)); reflexivity.
Qed.

(** X12: the sponge spins only while it is not dragged.  Through any
    events the rotation of its mesh grows by 0.01 for every frame that
    runs without a drag and by nothing else; from the first render it is
    0.01 times the number of such frames. *)
Theorem X12_spin_counts_idle_frames (tr : list (R * event)) (w : world) (t0 : R) :
  mesh_rotation (run tr w)
  = option_map (fun r => r + 0.01 * INR (idle_frames (dragging (sponge w)) tr))
               (mesh_rotation w)
  /\ mesh_rotation (run tr (init t0)) = Some (0.01 * INR (idle_frames false tr)).
Proof.
  assert (H : forall tr w,
             mesh_rotation (run tr w)
             = option_map (fun r => r + 0.01 * INR (idle_frames (dragging (sponge w)) tr))
                          (mesh_rotation w)).
  { clear. induction tr as [|[t e] tr IH]; intros w.
    - simpl. destruct (mesh_rotation w); simpl; [f_equal; lra|reflexivity].
    - rewrite run_cons, IH, step_rotation, step_dragging. cbn [snd idle_frames].
      destruct e as [pos| | | |ans]; try reflexivity.
      destruct (dragging (sponge w)); [reflexivity|].
      destruct (mesh_rotation w); [|reflexivity].
      cbn [option_map]. rewrite S_INR. f_equal. lra. }
  split; [apply H|]. rewrite H. simpl. f_equal. lra.
Qed.

(** ** X13, X14: the page *)

Lemma App_render_ext (a b : AppState) :
  scrubs a = scrubs b -> isGlowing a = isGlowing b -> showIntro a = showIntro b ->
  App_render a = App_render b.
Proof.
  intros H1 H2 H3. unfold App_render, scrub_counter. rewrite H1, H2, H3.
  reflexivity.
Qed.

(** X13: nothing on the page shows the dead flag.  The page rendered by
    [App] is the same whatever the flag is, so the passing of time alone,
    with every timer that runs in it, never changes the page; in
    particular the page 800 ms after a click on the modal is the page
    right after the click. *)
Theorem X13_page_ignores_dead (w : world) (t : R) (b : bool) :
  App_render (setDead b (app w)) = App_render (app w)
  /\ App_render (app (advance t w)) = App_render (app w).
Proof.
  split; [apply App_render_ext; reflexivity|].
  destruct (advance_frame t w) as (_ & H1 & H2 & H3 & _).
  apply App_render_ext; assumption.
Qed.

(** X14: in every state the page can reach, the win banner is on the page
    exactly when the counter has reached 10, the modal exactly while the
    intro-shown flag is set, and the HUD always shows the current count. *)
Theorem X14_page_follows_state (w : world) :
  reachable w ->
  ((exists text, In (win_banner text) (App_render (app w)))
   <-> (threshold <= scrubs (app w))%nat)
  /\ ((exists h q bs, In (intro_modal h q bs) (App_render (app w)))
      <-> showIntro (app w) = true)
  /\ In (hud_scrub_counter (scrub_counter (app w))) (App_render (app w)).
Proof.
  intros Hr. pose proof (glow_inv_reachable w Hr) as Hg. unfold glow_inv in Hg.
  rewrite <- Nat.leb_le, <- Hg. unfold App_render.
  split; [|split].
  - split.
    + intros (text & Hin).
      destruct (isGlowing (app w)); [reflexivity|].
      destruct (showIntro (app w)); simpl in Hin;
        repeat (destruct Hin as [Hin|Hin]; [discriminate|]); contradiction.
    + intros ->. eexists.
      destruct (showIntro (app w)); simpl; [do 4 right|do 3 right];
        left; reflexivity.
  - split.
    + intros (h & q & bs & Hin).
      destruct (showIntro (app w)); [reflexivity|].
      destruct (isGlowing (app w)); simpl in Hin;
        repeat (destruct Hin as [Hin|Hin]; [discriminate|]); contradiction.
    + intros ->. do 3 eexists. simpl. do 3 right. left. reflexivity.
  - simpl. right. left. reflexivity.
Qed.

Lemma X14_page_follows_state_witness :
  reachable (scrubbed 12)
  /\ exists text, In (win_banner text) (App_render (app (scrubbed 12))).
Proof.
  destruct (scrubbed_state 12) as (Hr & _ & Hs).
  split; [exact Hr|].
  apply (proj1 (X14_page_follows_state _ Hr)). rewrite Hs. unfold threshold. lia.
Defined.

(** ** X15: a held sponge scrubs again *)

(** X15: the cooldown never lasts.  In any state the page can reach, once
    the cooldown length has passed the cooldown flag is clear, and a frame
    of a drag within the radius at that time or later adds one to the
    counter. *)
Theorem X15_cooldown_ends (w : world) (t : R) (pos : vec3) :
  reachable w ->
  clock w + cooldown_ms <= t ->
  scrubCooldown (sponge (advance t w)) = false
  /\ (dragging (sponge w) = true -> near pos ->
      scrubs (app (step (t, Frame pos) w)) = S (scrubs (app w))).
Proof.
  intros Hr Ht.
  assert (Hc : scrubCooldown (sponge (advance t w)) = false).
  { apply advance_free; [apply cool_inv_reachable, Hr|].
    eapply Forall_impl; [|apply release_bound, Hr]. cbv beta. intros tm H. lra. }
  split; [exact Hc|]. intros Hd Hn.
  rewrite step_scrubs. cbn [fst snd]. unfold fires.
  destruct (advance_frame t w) as (_ & _ & _ & _ & _ & -> & _).
  rewrite Hd, (near_scrub_test _ _ Hn), Hc. reflexivity.
Qed.

Lemma X15_cooldown_ends_witness :
  reachable held_300
  /\ scrubs (app (step (700, Frame crow_centre) held_300))
     = S (scrubs (app held_300)).
Proof.
  destruct first_scrub_state as (Hr & Hd & _ & Hc).
  assert (Hr3 : reachable held_300) by (apply reach_step, Hr).
  split; [exact Hr3|].
  assert (H300 : fst (300, Frame crow_centre) < 0 + cooldown_ms)
    by (unfold cooldown_ms; simpl; lra).
  destruct (cooling_step _ (300, Frame crow_centre) held_0 Hc H300)
    as ((_ & Hk & _) & _).
  apply (X15_cooldown_ends held_300 700 crow_centre Hr3).
  - unfold held_300. unfold cooldown_ms in *. lra.
  - unfold held_300. rewrite step_frame_dragging. exact Hd.
  - apply near_centre.
Defined.

(** ** X16: the glow effect on a loaded scene *)

Lemma SceneObject_induction (P : SceneObject -> Prop) :
  (forall children, Forall P children -> P (SceneGroup children)) ->
  (forall cs rs m children,
     Forall P children -> P (SceneMesh cs rs m children)) ->
  forall c, P c.
Proof.
  intros Hg Hm. fix IH 1. intros [children|cs rs m children].
  - apply Hg. induction children as [|x l IHl]; constructor; [apply IH|exact IHl].
  - apply Hm. induction children as [|x l IHl]; constructor; [apply IH|exact IHl].
Qed.

Lemma map_ext_Forall {A B : Type} (f g : A -> B) (l : list A) :
  Forall (fun x => f x = g x) l -> map f l = map g l.
Proof.
  induction 1 as [|x l Hx _ IH]; simpl; [reflexivity|]. rewrite Hx, IH. reflexivity.
Qed.

Lemma flat_map_ext_Forall {A B : Type} (f g : A -> list B) (l : list A) :
  Forall (fun x => f x = g x) l -> flat_map f l = flat_map g l.
Proof.
  induction 1 as [|x l Hx _ IH]; simpl; [reflexivity|]. rewrite Hx, IH. reflexivity.
Qed.

Lemma flat_map_map {A B C : Type} (f : B -> list C) (g : A -> B) (l : list A) :
  flat_map f (map g l) = flat_map (fun x => f (g x)) l.
Proof.
  induction l as [|x l IH]; simpl; [reflexivity|]. rewrite IH. reflexivity.
Qed.

Lemma map_flat_map {A B C : Type} (h : B -> C) (f : A -> list B) (l : list A) :
  map h (flat_map f l) = flat_map (fun x => map h (f x)) l.
Proof.
  induction l as [|x l IH]; simpl; [reflexivity|].
  rewrite map_app, IH. reflexivity.
Qed.

Lemma glow_material_twice (g : bool) (m : MeshMaterial) :
  glow_material g (glow_material g m) = glow_material g m.
Proof. destruct g, m as [[c|] i]; reflexivity. Qed.

Lemma glow_material_on_last (g : bool) (m : MeshMaterial) :
  glow_material true (glow_material g m) = glow_material true m.
Proof. destruct g, m as [[c|] i]; reflexivity. Qed.

(** X16: the effect of [CrowModel] keeps the scene graph as it is and
    writes only to its meshes: each mesh gets both shadow flags and a
    material that depends on its own old material alone, with emissive
    intensity 0.4 when glowing and 0 when not, and an emissive colour that
    is kept when there is one.  Running the effect twice is the same as
    running it once, and after a run with the glow on, an earlier run does
    not matter; a run with the glow off does not undo a run with the glow
    on, which leaves a black emissive colour where there was none. *)
Theorem X16_glow_effect (g : bool) (c : SceneObject) :
  shape (glow_traverse g c) = shape c
  /\ meshes (glow_traverse g c)
     = map (fun x => (true, true, glow_material g (snd x))) (meshes c)
  /\ Forall (fun x => emissiveIntensity (snd x) = if g then 0.4 else 0)
            (meshes (glow_traverse g c))
  /\ glow_traverse g (glow_traverse g c) = glow_traverse g c
  /\ glow_traverse true (glow_traverse g c) = glow_traverse true c
  /\ glow_traverse false
       (glow_traverse true (SceneMesh false false (mkMaterial None 1) []))
     <> glow_traverse false (SceneMesh false false (mkMaterial None 1) []).
Proof.
  assert (H2 : forall c,
             meshes (glow_traverse g c)
             = map (fun x => (true, true, glow_material g (snd x))) (meshes c)).
  { clear c. intros c.
    induction c as [children IH|cs rs m children IH] using SceneObject_induction;
      cbn [glow_traverse meshes]; [|cbn [map snd]; f_equal];
      rewrite flat_map_map, map_flat_map; apply flat_map_ext_Forall, IH. }
  assert (H1 : forall c, shape (glow_traverse g c) = shape c).
  { clear c. intros c.
    induction c as [children IH|cs rs m children IH] using SceneObject_induction;
      cbn [glow_traverse shape]; f_equal;
      rewrite map_map; apply map_ext_Forall, IH. }
  assert (H4 : forall c, glow_traverse g (glow_traverse g c) = glow_traverse g c).
  { clear c. intros c.
    induction c as [children IH|cs rs m children IH] using SceneObject_induction;
      cbn [glow_traverse]; [|rewrite glow_material_twice]; f_equal;
      rewrite map_map; apply map_ext_Forall, IH. }
  assert (H5 : forall c,
             glow_traverse true (glow_traverse g c) = glow_traverse true c).
  { clear c. intros c.
    induction c as [children IH|cs rs m children IH] using SceneObject_induction;
      cbn [glow_traverse]; [|rewrite glow_material_on_last]; f_equal;
      rewrite map_map; apply map_ext_Forall, IH. }
  split; [apply H1|]. split; [apply H2|]. split; [|split; [apply H4|]].
  - rewrite H2. apply Forall_forall. intros x Hin. apply in_map_iff in Hin.
    destruct Hin as (y & <- & _). simpl. destruct g; reflexivity.
  - split; [apply H5|]. simpl. unfold glow_material. simpl. discriminate.
Qed.

(** ** X17: when the placeholder is rendered *)

(** X17: the placeholder is rendered only when something was thrown.
    [ModelOrFallback] returns the bathtub placeholder, the group at
    (0, -1.1, 0) with the cylinder of roughness 0.5 and metalness 0.1,
    exactly when [useGLTF] throws for its path, and [CrowModel] returns the placeholder
    crow exactly when [useGLTF] throws for the crow or the clone of the
    loaded scene throws.  When the crow loads and is cloned, [CrowModel]
    renders the clone, not the cached scene, at scale 0.9, and registers
    one effect, which applies the glow to that clone. *)
Theorem X17_placeholder_only_on_throw
    (useGLTF : string -> render SceneObject)
    (clone : SceneObject -> render SceneObject)
    (path : string) (position : vec3) (isGlowing : bool) :
  (ModelOrFallback useGLTF path BathtubPlaceholder position
   = inr (Rendered
            (group (Vec3 0 (-1.1) 0)
               [ mesh (Vec3 0 0 0) (Vec3 0 0 0) false true
                   (cylinderGeometry 2.2 2.2 0.6 32)
                   (Material "#6d87b0ff" (Some 0.1) (Some 0.5)) ])
            [])
   <-> exists e, useGLTF path = inl e)
  /\ (CrowModel useGLTF clone position isGlowing
      = inr (Rendered (crow_placeholder position isGlowing) [])
      <-> (exists e, useGLTF "/models/crow.glb"%string = inl e)
          \/ (exists s e, useGLTF "/models/crow.glb"%string = inr s
                          /\ clone s = inl e))
  /\ (forall s s',
        useGLTF "/models/crow.glb"%string = inr s ->
        clone s = inr s' ->
        exists r,
          CrowModel useGLTF clone position isGlowing = inr r
          /\ output SceneObject r = primitive s' position (Some 0.9)
          /\ map run_effect (effects SceneObject r) = [glow_traverse isGlowing s']).
Proof.
  rewrite ModelOrFallback_returns, CrowModel_returns.
  split; [|split].
  - destruct (useGLTF path) as [e|s]; split.
    + intros _. exists e. reflexivity.
    + reflexivity.
    + unfold BathtubPlaceholder. intros H. discriminate.
    + intros (e & H). discriminate.
  - destruct (useGLTF "/models/crow.glb"%string) as [e|s].
    + split; [intros _; left; exists e; reflexivity|reflexivity].
    + destruct (clone s) as [e|s'] eqn:Hc; split.
      * intros _. right. exists s, e. auto.
      * reflexivity.
      * unfold crow_placeholder. intros H. discriminate.
      * intros [(e & H)|(s0 & e & H1 & H2)]; [discriminate|].
        injection H1 as <-. congruence.
  - intros s s' Hs Hc. rewrite Hs, Hc. eexists. split; [reflexivity|].
    split; reflexivity.
Qed.

(** ** X18: where the sponge is *)

Lemma step_position (te : R * event) (w : world) :
  position (sponge (step te w))
  = match snd te with
    | Frame pos =>
        if dragging (sponge w) then newPos_of pos else position (sponge w)
    | _ => position (sponge w)
    end.
Proof.
  unfold step. rewrite handle_position.
  destruct (advance_frame (fst te) w) as (_ & _ & _ & _ & _ & -> & -> & _).
  reflexivity.
Qed.

(** X18: through any events, the stored position of the sponge is the
    clamped world position of the last frame that ran during a drag, and
    the position it had before when there was no such frame: frames
    without a drag, presses, releases, clicks and the passing of time
    never move it. *)
Theorem X18_position_of_last_drag_frame (tr : list (R * event)) (w : world) :
  position (sponge (run tr w))
  = match last_drag_pos (dragging (sponge w)) tr with
    | Some pos => newPos_of pos
    | None => position (sponge w)
    end.
Proof.
  revert w. induction tr as [|[t e] tr IH]; intros w; [reflexivity|].
  rewrite run_cons, IH, step_dragging, step_position. cbn [snd last_drag_pos].
  destruct e as [pos| | | |ans];
    destruct (last_drag_pos _ tr); try reflexivity.
  destruct (dragging (sponge w)); reflexivity.
Qed.
